(** * EtherSignal: the spectrum ledger and the provider that drives it

    A shallow embedding of the two halves of the repository that carry its
    grant lifecycle:

    - [SpectrumMarket], the Solidity contract (one [Grant] per device,
      [grantAccess], [revokeAccess] and the read-only views), as an
      error-and-state monad over the contract's storage;
    - [SpectrumProvider], the TypeScript provider process (the polling loop
      [pollForSignals] and the per-sample decision [handleSignalData]), with
      explicit state passing for the [deviceStates] map and the poll cursor.

    Unsigned Solidity integers are modelled in [N], arguments being taken
    within their declared types; the two narrowing casts [uint96(..)] and
    [uint32(..)] are written out as reductions modulo a power of two, and the
    checked [+] of Solidity 0.8 as a [Panic] revert.  The owner's withdrawal
    functions touch neither the grants nor [totalCollected] and are left out.
    JavaScript numbers (indices, SNR values, millisecond clocks) are in [Z].

    Definitions come first: the two programs, sequences of ledger calls, the
    callback of the poller cut at its [await]s, and the concrete scenarios
    the examples run.  The facts follow, ledger first. *)

From stdpp Require Import base numbers option list sorting gmap strings.

(* ===================================================================== *)
(** ** The ledger contract                                                *)
(* ===================================================================== *)

Module SpectrumMarket.

Local Open Scope N_scope.

(** [struct Grant]: an [address], a [uint96] and two [uint32]. *)
Record Grant : Type := mkGrant {
  provider : N;
  paidAmount : N;
  frequency : N;
  expiresAt : N
}.

(** What a mapping slot reads as when it was never written or was deleted. *)
Definition zeroGrant : Grant := mkGrant 0 0 0 0.

Inductive Event : Type :=
| AccessGranted (deviceId frequency duration amount provider timestamp : N)
| AccessRevoked (deviceId provider timestamp : N).

(** The custom errors of the two entry points, and the arithmetic panic
    (code 0x11) that a checked addition raises on overflow. *)
Inductive Error : Type :=
| InsufficientPayment
| InvalidDuration
| InvalidFrequency
| NotProvider
| GrantExpired
| Panic.

(** Contract storage, with the event log kept beside it. *)
Record Storage : Type := mkStorage {
  activeGrants : gmap N Grant;
  totalCollected : N;
  events : list Event
}.

Definition initial : Storage := mkStorage ∅ 0 [].

(** The context every call sees: [msg.sender] and [block.timestamp].
    [msg.value] is an argument of the one payable entry point instead,
    [grantAccess]: the other functions are not payable, and a call to them
    that carries value is turned away before their body runs. *)
Record Msg : Type := mkMsg {
  msg_sender : N;
  block_timestamp : N
}.

Inductive Outcome (A : Type) : Type :=
| Done (a : A)
| Revert (e : Error).
Arguments Done {A} a.
Arguments Revert {A} e.

(** A function body: it threads the storage and may revert.  The storage
    returned with a [Revert] is the storage at the point of the revert; the
    roll-back the EVM performs is [transact], below. *)
Definition Exec (A : Type) : Type := Storage -> Outcome A * Storage.

Definition ret {A} (a : A) : Exec A := fun s => (Done a, s).

Definition bind {A B} (c : Exec A) (k : A -> Exec B) : Exec B :=
  fun s =>
    match c s with
    | (Done a, s') => k a s'
    | (Revert e, s') => (Revert e, s')
    end.

Definition revert {A} (e : Error) : Exec A := fun s => (Revert e, s).

Notation "x <- c ;; k" := (bind c (fun x => k))
  (at level 100, c at next level, right associativity).
Notation "c ;; k" := (bind c (fun _ => k))
  (at level 100, right associativity).

(** [if (cond) revert E();] *)
Definition revert_if (cond : bool) (e : Error) : Exec unit :=
  if cond then revert e else ret tt.

Definition uint256_max : N := 2 ^ 256 - 1.
Definition uint96 (x : N) : N := x mod 2 ^ 96.
Definition uint32 (x : N) : N := x mod 2 ^ 32.

(** Checked [uint256] addition. *)
Definition checked_add (a b : N) : Exec N :=
  if a + b <=? uint256_max then ret (a + b) else revert Panic.

(** Reading [activeGrants[deviceId]]. *)
Definition lookupGrant (deviceId : N) (s : Storage) : Grant :=
  default zeroGrant (activeGrants s !! deviceId).

Definition load_grant (deviceId : N) : Exec Grant :=
  fun s => (Done (lookupGrant deviceId s), s).

Definition store_grant (deviceId : N) (g : Grant) : Exec unit :=
  fun s => (Done tt,
            mkStorage (<[deviceId := g]> (activeGrants s)) (totalCollected s) (events s)).

Definition delete_grant (deviceId : N) : Exec unit :=
  fun s => (Done tt,
            mkStorage (delete deviceId (activeGrants s)) (totalCollected s) (events s)).

Definition load_totalCollected : Exec N :=
  fun s => (Done (totalCollected s), s).

Definition store_totalCollected (v : N) : Exec unit :=
  fun s => (Done tt, mkStorage (activeGrants s) v (events s)).

Definition emit (ev : Event) : Exec unit :=
  fun s => (Done tt, mkStorage (activeGrants s) (totalCollected s) (events s ++ [ev])).

(** [0.001 ether], in wei. *)
Definition MIN_PRICE : N := 10 ^ 15.

Definition grantAccess (m : Msg) (msg_value : N) (deviceId frequency duration : N)
    : Exec unit :=
  revert_if (msg_value <? MIN_PRICE) InsufficientPayment ;;
  revert_if ((duration =? 0) || (3600 <? duration)) InvalidDuration ;;
  revert_if (frequency =? 0) InvalidFrequency ;;
  let amount := uint96 msg_value in
  t <- checked_add (block_timestamp m) duration ;;
  store_grant deviceId (mkGrant (msg_sender m) amount frequency (uint32 t)) ;;
  tc <- load_totalCollected ;;
  tc' <- checked_add tc msg_value ;;
  store_totalCollected tc' ;;
  emit (AccessGranted deviceId frequency duration amount (msg_sender m) (block_timestamp m)).

Definition revokeAccess (m : Msg) (deviceId : N) : Exec unit :=
  grant <- load_grant deviceId ;;
  revert_if (negb (provider grant =? msg_sender m)) NotProvider ;;
  revert_if (expiresAt grant <=? block_timestamp m) GrantExpired ;;
  delete_grant deviceId ;;
  emit (AccessRevoked deviceId (msg_sender m) (block_timestamp m)).

Definition canTransmit (m : Msg) (deviceId : N) (s : Storage) : bool :=
  let grant := lookupGrant deviceId s in
  block_timestamp m <? expiresAt grant.

Definition getGrant (deviceId : N) (s : Storage) : Grant :=
  lookupGrant deviceId s.

Definition getGrantExpiration (deviceId : N) (s : Storage) : N :=
  expiresAt (lookupGrant deviceId s).

(** A transaction: the body runs, and a revert restores the storage (and
    drops the events) of the whole call. *)
Definition transact {A} (c : Exec A) (s : Storage) : Outcome A * Storage :=
  match c s with
  | (Done a, s') => (Done a, s')
  | (Revert e, _) => (Revert e, s)
  end.

(** A grant record is present in the mapping. *)
Definition grantExists (deviceId : N) (s : Storage) : Prop :=
  is_Some (activeGrants s !! deviceId).

End SpectrumMarket.

(* ===================================================================== *)
(** ** The provider process                                               *)
(* ===================================================================== *)

Module SpectrumProvider.

Local Open Scope Z_scope.

(** [interface DeviceState] *)
Record DeviceState : Type := mkDeviceState {
  hasGrant : bool;
  grantExpires : Z;
  lastSNR : Z
}.

(** The state [handleSignalData] assumes for a device the map has no entry for. *)
Definition freshState : DeviceState := mkDeviceState false 0 0.

(** What [getAtIndex] hands to [handleSignalData], as far as the handler
    looks at it: [rawData[0]] missing or no array, a field access that
    throws inside the handler's [try], or the three fields it reads. *)
Inductive RawData : Type :=
| Unexpected
| Undecodable
| Fields (deviceId : string) (snr : Z) (bidPrice : Z).

(** The two calls the provider sends through [walletClient.writeContract]. *)
Inductive Tx : Type :=
| GrantAccessTx (deviceId : string) (frequency duration value gas : Z)
| RevokeAccessTx (deviceId : string) (gas : Z).

(** [writeContract] returns a hash or throws. *)
Inductive TxResult : Type :=
| TxHash
| TxThrows.

(** What one sample leads to. *)
Inductive Action : Type :=
| Grant (tx : Tx)
| Revoke (tx : Tx)
| NoAction.

(** The closures handed to [txQueue.add]: the grant task captures
    [deviceId] and [currentState], the revoke task only [deviceId]. *)
Inductive Task : Type :=
| GrantTask (deviceId : string) (currentState : DeviceState)
| RevokeTask (deviceId : string).

(** [parseEther('0.001')] *)
Definition GRANT_VALUE : Z := 10 ^ 15.

Definition taskTx (t : Task) : Tx :=
  match t with
  | GrantTask deviceId _ => GrantAccessTx deviceId 2400 10 GRANT_VALUE 200000
  | RevokeTask deviceId => RevokeAccessTx deviceId 100000
  end.

(** The body of a queued task, given what [writeContract] did: the grant
    task's [catch] writes [currentState] back, the revoke task's [catch]
    only logs. *)
Definition runTask (t : Task) (r : TxResult)
    (deviceStates : gmap string DeviceState) : gmap string DeviceState :=
  match t, r with
  | GrantTask deviceId currentState, TxThrows => <[deviceId := currentState]> deviceStates
  | GrantTask _ _, TxHash => deviceStates
  | RevokeTask _, _ => deviceStates
  end.

(** What a call of [handleSignalData] reads from outside: [Date.now()] and
    the result of the submission it may queue. *)
Record Env : Type := mkEnv {
  now : Z;
  writeContract : TxResult
}.

Section Decision.

(** [MIN_SNR], read from the environment at start-up (default 10). *)
Variable MIN_SNR : Z.

Definition currentStateOf (deviceId : string)
    (deviceStates : gmap string DeviceState) : DeviceState :=
  default freshState (deviceStates !! deviceId).

(** [handleSignalData] up to the point where it queues a task: the action,
    the map after the optimistic update, and the task. *)
Definition decideAction (now : Z) (rawData : RawData)
    (deviceStates : gmap string DeviceState)
    : Action * gmap string DeviceState * option Task :=
  match rawData with
  | Unexpected => (NoAction, deviceStates, None)
  | Undecodable => (NoAction, deviceStates, None)
  | Fields deviceId snr bidPrice =>
      let currentState := currentStateOf deviceId deviceStates in
      let shouldHaveGrant := MIN_SNR <=? snr in
      let grantExpired := grantExpires currentState <? now in
      if shouldHaveGrant && (negb (hasGrant currentState) || grantExpired) then
        let task := GrantTask deviceId currentState in
        (Grant (taskTx task),
         <[deviceId := mkDeviceState true (now + 10000) snr]> deviceStates,
         Some task)
      else if negb shouldHaveGrant && hasGrant currentState && negb grantExpired then
        let task := RevokeTask deviceId in
        (Revoke (taskTx task),
         <[deviceId := mkDeviceState false 0 snr]> deviceStates,
         Some task)
      else (NoAction, deviceStates, None)
  end.

(** [handleSignalData]: the handler awaits [txQueue.add], so with the queue
    idle the task has run when the handler returns. *)
Definition handleSignalData (env : Env) (rawData : RawData)
    (deviceStates : gmap string DeviceState)
    : Action * gmap string DeviceState :=
  match decideAction (now env) rawData deviceStates with
  | (a, optimistic, Some task) => (a, runTask task (writeContract env) optimistic)
  | (a, optimistic, None) => (a, optimistic)
  end.

(** A stream of samples handled one after the other, with the actions taken. *)
Fixpoint handleAll (samples : list (Env * RawData))
    (deviceStates : gmap string DeviceState)
    : list Action * gmap string DeviceState :=
  match samples with
  | [] => ([], deviceStates)
  | (env, rawData) :: rest =>
      let '(a, deviceStates') := handleSignalData env rawData deviceStates in
      let '(acts, final) := handleAll rest deviceStates' in
      (a :: acts, final)
  end.

(** The provider as the poller's handler sees it: the map, the actions
    taken so far, and how many records it has handled. *)
Record Provider : Type := mkProvider {
  deviceStates : gmap string DeviceState;
  actions : list Action;
  handled : nat
}.

(** What the [n]-th call of the handler finds outside. *)
Variable world : nat -> Env.

Definition handleNext (rawData : RawData) (pr : Provider) : Provider :=
  let '(a, ds) :=
    handleSignalData (world (handled pr)) rawData (deviceStates pr) in
  mkProvider ds (actions pr ++ [a]) (S (handled pr)).

End Decision.

(** *** The polling loop *)

(** [getAtIndex]: it throws, resolves to nothing, or resolves to a record. *)
Inductive Fetch : Type :=
| FetchThrows
| FetchNothing
| FetchData (data : RawData).

(** [totalPublisherDataForSchema]: it throws, resolves to a falsy value
    ([null], [undefined]), or to a count. *)
Inductive Total : Type :=
| TotalThrows
| TotalFalsy
| TotalIs (total : Z).

(** What one timer tick reads from the stream. *)
Record Tick : Type := mkTick {
  totalPublisherDataForSchema : Total;
  getAtIndex : Z -> Fetch
}.

Section Poller.

(** The handler's own state, and the handler. *)
Context {St : Type}.
Variable handle : RawData -> St -> St.

(** The cursor, the handler's state, and (for the statements only) the
    indices handed to the handler so far, oldest first. *)
Record Poller : Type := mkPoller {
  lastProcessedIndex : Z;
  dispatched : list Z;
  handlerState : St
}.

Definition start (st : St) : Poller := mkPoller (-1) [] st.

(** The [for] loop over the indices still to visit; a throwing fetch leaves
    the loop through the callback's [catch]. *)
Fixpoint pollLoop (getAtIndex : Z -> Fetch) (indices : list Z) (p : Poller) : Poller :=
  match indices with
  | [] => p
  | i :: rest =>
      match getAtIndex i with
      | FetchThrows => p
      | FetchNothing => pollLoop getAtIndex rest p
      | FetchData data =>
          pollLoop getAtIndex rest
            (mkPoller i (dispatched p ++ [i]) (handle data (handlerState p)))
      end
  end.

(** The callback of [setInterval], run to completion. *)
Definition pollTick (t : Tick) (p : Poller) : Poller :=
  match totalPublisherDataForSchema t with
  | TotalThrows => p
  | TotalFalsy => p
  | TotalIs total =>
      if total =? 0 then p
      else
        let first := lastProcessedIndex p + 1 in
        pollLoop (getAtIndex t) (seqZ first (total - first)) p
  end.

(** Ticks one after the other. *)
Definition pollTicks (ticks : list Tick) (p : Poller) : Poller :=
  foldl (fun q t => pollTick t q) p ticks.

End Poller.

End SpectrumProvider.

(* ===================================================================== *)
(** ** Sequences of ledger calls                                          *)
(* ===================================================================== *)

Module Ledger.

Import SpectrumMarket.
Local Open Scope N_scope.

(** A call of one of the two state-changing entry points. *)
Inductive Call : Type :=
| CallGrant (m : Msg) (msg_value deviceId frequency duration : N)
| CallRevoke (m : Msg) (deviceId : N).

Definition callDevice (c : Call) : N :=
  match c with
  | CallGrant _ _ deviceId _ _ => deviceId
  | CallRevoke _ deviceId => deviceId
  end.

Definition isGrantOn (deviceId : N) (c : Call) : bool :=
  match c with
  | CallGrant _ _ d _ _ => d =? deviceId
  | CallRevoke _ _ => false
  end.

Definition execute (c : Call) (s : Storage) : Outcome unit * Storage :=
  match c with
  | CallGrant m msg_value deviceId frequency duration =>
      transact (grantAccess m msg_value deviceId frequency duration) s
  | CallRevoke m deviceId => transact (revokeAccess m deviceId) s
  end.

(** The storage after a list of transactions, each on the storage the one
    before left. *)
Definition executeAll (calls : list Call) (s : Storage) : Storage :=
  foldl (fun s' c => snd (execute c s')) s calls.

(** No call of the list, run in order from [s], changes the record of
    [deviceId]: each one targets another device or reverts. *)
Fixpoint leavesDevice (deviceId : N) (calls : list Call) (s : Storage) : Prop :=
  match calls with
  | [] => True
  | c :: rest =>
      (callDevice c ≠ deviceId ∨ ∃ e, fst (execute c s) = Revert e)
      ∧ leavesDevice deviceId rest (snd (execute c s))
  end.

(** The storage a successful [grantAccess] leaves. *)
Definition granted (m : Msg) (msg_value deviceId frequency duration : N) (s : Storage)
    : Storage :=
  mkStorage
    (<[deviceId := mkGrant (msg_sender m) (uint96 msg_value) frequency
                     (uint32 (block_timestamp m + duration))]> (activeGrants s))
    (totalCollected s + msg_value)
    (events s ++ [AccessGranted deviceId frequency duration (uint96 msg_value)
                    (msg_sender m) (block_timestamp m)]).

(** The storage a successful [revokeAccess] leaves. *)
Definition revoked (m : Msg) (deviceId : N) (s : Storage) : Storage :=
  mkStorage (delete deviceId (activeGrants s)) (totalCollected s)
    (events s ++ [AccessRevoked deviceId (msg_sender m) (block_timestamp m)]).

End Ledger.

(* ===================================================================== *)
(** ** Concrete ledger scenarios                                          *)
(* ===================================================================== *)

Module LedgerScenarios.

Import SpectrumMarket Ledger.
Local Open Scope N_scope.

(** Device [0xAA..] of the spec's scenario; any non-zero identifier does. *)
Definition deviceAA : N := 170.

Definition alice : N := 7.
Definition bob : N := 8.

(** Alice calls at second 200. *)
Definition aliceNow : Msg := mkMsg alice 200.

(** An earlier, larger grant by Bob on the same device. *)
Definition bobGrants : Call := CallGrant (mkMsg bob 100) (2 * MIN_PRICE) deviceAA 900 60.

(** Bob tries to revoke what is by then Alice's grant. *)
Definition bobRevokes : Call := CallRevoke (mkMsg bob 205) deviceAA.

(** Five seconds before the [uint32] clock wraps. *)
Definition lateMsg : Msg := mkMsg alice (2 ^ 32 - 5).

(** The ledger holding one grant: Alice's, paid at the minimum price, on
    [deviceAA], expiring at 210. *)
Definition aliceHolds : Storage := granted aliceNow MIN_PRICE deviceAA 2400 10 initial.

(** Bob, who holds no grant, calls after Alice's grant has run out. *)
Definition bobLate : Msg := mkMsg bob 300.

(** Alice calls while her grant is active, and again later. *)
Definition aliceCalls : Msg := mkMsg alice 205.
Definition aliceCallsAgain : Msg := mkMsg alice 206.

End LedgerScenarios.

(* ===================================================================== *)
(** ** Timer callbacks that overlap                                       *)
(* ===================================================================== *)

(** [setInterval] starts a new run of the callback every 500 ms whether or
    not the run before has returned, and a run is suspended at each of its
    three [await]s.  This is the same callback as [pollTick], cut at those
    points, with the cursor shared between the runs. *)
Module AsyncPoller.

Import SpectrumProvider.
Local Open Scope Z_scope.

(** Where a run of the callback is suspended. *)
Inductive Callback : Type :=
| AwaitTotal
| AwaitFetch (i totalNum : Z)
| AwaitHandle (i totalNum : Z)
| Returned.

Record Process : Type := mkProcess {
  cursor : Z;
  delivered : list Z;
  callbacks : list Callback
}.

Definition started : Process := mkProcess (-1) [] [].

(** What the event loop does next. *)
Inductive Resume : Type :=
| TimerFires
| TotalResolves (k : nat) (r : Total)
| FetchResolves (k : nat) (r : Fetch)
| HandlerReturns (k : nat).

(** The loop test [i < totalNum], followed by the call of [getAtIndex]. *)
Definition loopHead (i totalNum : Z) : Callback :=
  if i <? totalNum then AwaitFetch i totalNum else Returned.

Definition resume (ev : Resume) (p : Process) : Process :=
  match ev with
  | TimerFires => mkProcess (cursor p) (delivered p) (callbacks p ++ [AwaitTotal])
  | TotalResolves k r =>
      match callbacks p !! k with
      | Some AwaitTotal =>
          let next :=
            match r with
            | TotalThrows => Returned
            | TotalFalsy => Returned
            | TotalIs total =>
                if total =? 0 then Returned else loopHead (cursor p + 1) total
            end in
          mkProcess (cursor p) (delivered p) (<[k := next]> (callbacks p))
      | _ => p
      end
  | FetchResolves k r =>
      match callbacks p !! k with
      | Some (AwaitFetch i totalNum) =>
          match r with
          | FetchThrows =>
              mkProcess (cursor p) (delivered p) (<[k := Returned]> (callbacks p))
          | FetchNothing =>
              mkProcess (cursor p) (delivered p)
                (<[k := loopHead (i + 1) totalNum]> (callbacks p))
          | FetchData _ =>
              mkProcess (cursor p) (delivered p ++ [i])
                (<[k := AwaitHandle i totalNum]> (callbacks p))
          end
      | _ => p
      end
  | HandlerReturns k =>
      match callbacks p !! k with
      | Some (AwaitHandle i totalNum) =>
          mkProcess i (delivered p) (<[k := loopHead (i + 1) totalNum]> (callbacks p))
      | _ => p
      end
  end.

Definition resumes (evs : list Resume) (p : Process) : Process :=
  foldl (fun q ev => resume ev q) p evs.

(** The schedule in which run [k] gets through its loop undisturbed. *)
Fixpoint soloLoop (getAtIndex : Z -> Fetch) (k : nat) (indices : list Z) : list Resume :=
  match indices with
  | [] => []
  | i :: rest =>
      match getAtIndex i with
      | FetchThrows => [FetchResolves k FetchThrows]
      | FetchNothing => FetchResolves k FetchNothing :: soloLoop getAtIndex k rest
      | FetchData data =>
          FetchResolves k (FetchData data) :: HandlerReturns k
            :: soloLoop getAtIndex k rest
      end
  end.

(** The timer fires and the new run, the [k]-th, returns before anything
    else happens; [from] is the cursor it finds. *)
Definition soloRun (t : Tick) (k : nat) (from : Z) : list Resume :=
  TimerFires :: TotalResolves k (totalPublisherDataForSchema t)
    :: match totalPublisherDataForSchema t with
       | TotalThrows => []
       | TotalFalsy => []
       | TotalIs total =>
           if total =? 0 then []
           else soloLoop (getAtIndex t) k (seqZ (from + 1) (total - (from + 1)))
       end.

End AsyncPoller.

(* ===================================================================== *)
(** ** Concrete provider scenarios                                        *)
(* ===================================================================== *)

Module ProviderScenarios.

Import SpectrumProvider AsyncPoller.
Local Open Scope Z_scope.

Definition device : string := "0xaa".

Definition sample (snr : Z) : RawData := Fields device snr GRANT_VALUE.

(** A device holding a grant that runs until millisecond 60000. *)
Definition holding : DeviceState := mkDeviceState true 60000 12.

(** A poor sample at millisecond 55000 whose revoke submission throws. *)
Definition revokeThrows : Env := mkEnv 55000 TxThrows.

(** Two records are published; the fetch of the first resolves to nothing. *)
Definition firstFetchEmpty : Tick :=
  mkTick (TotalIs 2) (fun i => if i =? 0 then FetchNothing else FetchData (sample 12)).

(** Every fetch of the tick resolves to a record. *)
Definition allFetched (total : Z) : Tick :=
  mkTick (TotalIs total) (fun _ => FetchData (sample 12)).

(** Four records of the device, with SNR 12, 14, 8 and 16. *)
Definition fourSamples : Tick :=
  mkTick (TotalIs 4)
    (fun i => FetchData (sample (nth (Z.to_nat i) [12; 14; 8; 16] 0))).

(** Half a second between records, every submission accepted. *)
Definition steadyWorld (n : nat) : Env := mkEnv (1000 + 500 * Z.of_nat n) TxHash.

(** The handler that keeps what it was given. *)
Definition record (data : RawData) (seen : list RawData) : list RawData := seen ++ [data].

(** A poor sample of another device: no action, so its handler returns at
    once. *)
Definition otherSample : RawData := Fields "0xbb" 5 GRANT_VALUE.

(** One record is published.  The first run has handed it to the handler
    and waits for the handler (which waits for its grant submission) when
    the timer fires again; the second run still finds the cursor at -1 and
    hands the record over once more (no action this time, so that handler
    returns first). *)
Definition twoRunsOneRecord : list Resume :=
  [TimerFires; TotalResolves 0 (TotalIs 1); FetchResolves 0 (FetchData (sample 12));
   TimerFires; TotalResolves 1 (TotalIs 1); FetchResolves 1 (FetchData (sample 12));
   HandlerReturns 1; HandlerReturns 0].

(** Two records are published and two runs overlap.  The first run's grant
    submission for index 0 throws (the device is rolled back) after the
    second run has started; the second run then hands index 0 over again
    and waits for its own grant submission, while the first run gets
    through index 1.  The next thing to happen is the second run's handler
    returning. *)
Definition secondRunLagsBehind : list Resume :=
  [TimerFires; TotalResolves 0 (TotalIs 2); FetchResolves 0 (FetchData (sample 12));
   TimerFires; TotalResolves 1 (TotalIs 2);
   HandlerReturns 0;
   FetchResolves 1 (FetchData (sample 12));
   FetchResolves 0 (FetchData otherSample); HandlerReturns 0].

End ProviderScenarios.

(* ===================================================================== *)
(** ** What the poller keeps true                                         *)
(* ===================================================================== *)

Module PollerInvariant.

Import SpectrumProvider.
Local Open Scope Z_scope.

(** The indices dispatched so far are strictly ascending and none lies
    beyond the cursor. *)
Definition pollerInv {St} (p : @Poller St) : Prop :=
  StronglySorted Z.lt (dispatched p)
  ∧ Forall (λ i, 0 ≤ i ≤ lastProcessedIndex p) (dispatched p)
  ∧ -1 ≤ lastProcessedIndex p.

(** [q] continues [p]: the cursor did not move back, and the dispatches of
    [p] are followed by indices beyond [p]'s cursor only. *)
Definition extends {St} (p q : @Poller St) : Prop :=
  lastProcessedIndex p ≤ lastProcessedIndex q
  ∧ ∃ new, dispatched q = dispatched p ++ new
           ∧ Forall (λ i, lastProcessedIndex p < i) new.

End PollerInvariant.

(* ===================================================================== *)
(** ** The contract's funds                                               *)
(* ===================================================================== *)

(** The contract with its owner and its ether: [grantAccess] is payable, so
    an accepted grant adds [msg.value] to the balance, and [withdraw] and
    [emergencyWithdraw] send the balance to the owner.  Whether the owner
    accepts the ether is the environment's; it is an argument of the call.
    The owner's code, if it has any, is taken not to call back into the
    contract, and ether forced onto the address from outside is not
    modelled. *)
Module SpectrumFunds.

Import SpectrumMarket.
Local Open Scope N_scope.

Inductive FundsEvent : Type :=
| FundsWithdrawn (owner amount timestamp : N).

(** Why a call fails: a revert of [grantAccess] or [revokeAccess], the two
    errors of [withdraw], or the failure of [transfer]. *)
Inductive Failure : Type :=
| Reverted (e : Error)
| OnlyOwner
| WithdrawFailed
| TransferFailed.

Inductive Result : Type :=
| Succeeded
| Failed (f : Failure).

(** Ether leaving the contract. *)
Record Transfer : Type := mkTransfer {
  recipient : N;
  amount : N
}.

Record Contract : Type := mkContract {
  owner : N;
  ledger : Storage;
  balance : N;
  fundsEvents : list FundsEvent
}.

(** [constructor() { owner = msg.sender; }] *)
Definition constructor (m : Msg) : Contract := mkContract (msg_sender m) initial 0 [].

(** A call of [grantAccess] with its payment: the payment stays with the
    contract when the call goes through and returns to the sender when it
    reverts. *)
Definition payGrantAccess (m : Msg) (msg_value deviceId frequency duration : N)
    (k : Contract) : Result * Contract * list Transfer :=
  match transact (grantAccess m msg_value deviceId frequency duration) (ledger k) with
  | (Done _, s') =>
      (Succeeded, mkContract (owner k) s' (balance k + msg_value) (fundsEvents k), [])
  | (Revert e, _) => (Failed (Reverted e), k, [])
  end.

Definition callRevokeAccess (m : Msg) (deviceId : N) (k : Contract)
    : Result * Contract * list Transfer :=
  match transact (revokeAccess m deviceId) (ledger k) with
  | (Done _, s') => (Succeeded, mkContract (owner k) s' (balance k) (fundsEvents k), [])
  | (Revert e, _) => (Failed (Reverted e), k, [])
  end.

(** [withdraw]; [success] is what the [owner.call] that carries the balance
    returns. *)
Definition withdraw (m : Msg) (success : bool) (k : Contract)
    : Result * Contract * list Transfer :=
  if negb (msg_sender m =? owner k) then (Failed OnlyOwner, k, [])
  else
    let balance := balance k in
    if balance =? 0 then (Succeeded, k, [])
    else if negb success then (Failed WithdrawFailed, k, [])
    else
      (Succeeded,
       mkContract (owner k) (ledger k) 0
         (fundsEvents k ++ [FundsWithdrawn (owner k) balance (block_timestamp m)]),
       [mkTransfer (owner k) balance]).

(** [emergencyWithdraw]; [sent] is whether [transfer] goes through. *)
Definition emergencyWithdraw (m : Msg) (sent : bool) (k : Contract)
    : Result * Contract * list Transfer :=
  if negb (msg_sender m =? owner k) then (Failed OnlyOwner, k, [])
  else if negb sent then (Failed TransferFailed, k, [])
  else
    (Succeeded, mkContract (owner k) (ledger k) 0 (fundsEvents k),
     [mkTransfer (owner k) (balance k)]).

Definition getBalance (k : Contract) : N := balance k.

(** A transaction to the contract. *)
Inductive Call : Type :=
| GrantAccess (m : Msg) (msg_value deviceId frequency duration : N)
| RevokeAccess (m : Msg) (deviceId : N)
| Withdraw (m : Msg) (success : bool)
| EmergencyWithdraw (m : Msg) (sent : bool).

Definition call (c : Call) (k : Contract) : Result * Contract * list Transfer :=
  match c with
  | GrantAccess m v d f dur => payGrantAccess m v d f dur k
  | RevokeAccess m d => callRevokeAccess m d k
  | Withdraw m success => withdraw m success k
  | EmergencyWithdraw m sent => emergencyWithdraw m sent k
  end.

(** Transactions one after the other: the contract they leave and the
    ether that left it, oldest first. *)
Fixpoint calls (cs : list Call) (k : Contract) : Contract * list Transfer :=
  match cs with
  | [] => (k, [])
  | c :: rest =>
      let '(_, k', out) := call c k in
      let '(final, outs) := calls rest k' in
      (final, out ++ outs)
  end.

Definition caller (c : Call) : N :=
  match c with
  | GrantAccess m _ _ _ _ => msg_sender m
  | RevokeAccess m _ => msg_sender m
  | Withdraw m _ => msg_sender m
  | EmergencyWithdraw m _ => msg_sender m
  end.

(** The device a call is about, if any. *)
Definition target (c : Call) : option N :=
  match c with
  | GrantAccess _ _ d _ _ => Some d
  | RevokeAccess _ d => Some d
  | Withdraw _ _ => None
  | EmergencyWithdraw _ _ => None
  end.

Definition isEmergency (c : Call) : bool :=
  match c with
  | EmergencyWithdraw _ _ => true
  | _ => false
  end.

Definition total (out : list Transfer) : N := foldr (fun t acc => amount t + acc) 0 out.

Definition withdrawnAmount (ev : FundsEvent) : N :=
  match ev with
  | FundsWithdrawn _ amount _ => amount
  end.

End SpectrumFunds.

(* ===================================================================== *)
(** ** The device simulator                                               *)
(* ===================================================================== *)

(** The two pure functions of [IoTDevice].  Their argument is the result of
    [calculateSNR], which ends in [Math.max(0, Math.floor(..))]: an integer. *)
Module IoTDevice.

Local Open Scope Z_scope.

(** [1000000000000000n], 0.001 STT *)
Definition baseBid : Z := 1000000000000000.

Definition calculateBid (snr : Z) : Z :=
  if snr <? 5 then baseBid * 10
  else if snr <? 10 then baseBid * 5
  else if snr <? 12 then baseBid * 2
  else baseBid.

Definition getInterferenceLevel (snr : Z) : Z :=
  if 15 <=? snr then 0
  else if 12 <=? snr then 1
  else if 10 <=? snr then 2
  else if 7 <=? snr then 3
  else if 5 <=? snr then 4
  else 5.

End IoTDevice.

(* ===================================================================== *)
(** ** Vocabulary for streams of samples and ticks                        *)
(* ===================================================================== *)

Module Streams.

Import SpectrumProvider.
Local Open Scope Z_scope.

(** The device an action is about. *)
Definition actionDevice (a : Action) : option string :=
  match a with
  | Grant (GrantAccessTx d _ _ _ _) => Some d
  | Grant (RevokeAccessTx d _) => Some d
  | Revoke (GrantAccessTx d _ _ _ _) => Some d
  | Revoke (RevokeAccessTx d _) => Some d
  | NoAction => None
  end.

(** The actions about one device, in order. *)
Definition actionsOn (d : string) (acts : list Action) : list Action :=
  filter (λ a, actionDevice a = Some d) acts.

(** No revoke comes first unless a grant is [held], and none follows a
    revoke directly. *)
Fixpoint revokesFollowGrants (held : bool) (acts : list Action) : bool :=
  match acts with
  | [] => true
  | Grant _ :: rest => revokesFollowGrants true rest
  | Revoke _ :: rest => held && revokesFollowGrants false rest
  | NoAction :: rest => revokesFollowGrants held rest
  end.

(** The device a record is about, if it decodes. *)
Definition dataDevice (rawData : RawData) : option string :=
  match rawData with
  | Fields d _ _ => Some d
  | _ => None
  end.

Definition dataSnr (rawData : RawData) : option Z :=
  match rawData with
  | Fields _ snr _ => Some snr
  | _ => None
  end.

(** The SNR a record reports for device [d], if it is a record of [d]. *)
Definition snrOf (d : string) (rawData : RawData) : option Z :=
  match rawData with
  | Fields d' snr _ => if decide (d' = d) then Some snr else None
  | _ => None
  end.

(** The same record with another bid. *)
Definition rebid (f : Z → Z) (rawData : RawData) : RawData :=
  match rawData with
  | Fields d snr bid => Fields d snr (f bid)
  | other => other
  end.

(** No fetch of the tick resolves to nothing: it has a record or throws. *)
Definition noEmptyFetch (t : Tick) : Prop :=
  ∀ i, getAtIndex t i ≠ FetchNothing.

(** Every published index the tick is asked for has a record. *)
Definition allPresent (t : Tick) : Prop :=
  ∀ i, ∃ data, getAtIndex t i = FetchData data.

(** What handing index [i] of a tick to the handler does to its state. *)
Definition deliver {St} (handle : RawData → St → St) (t : Tick) (st : St) (i : Z) : St :=
  match getAtIndex t i with
  | FetchData data => handle data st
  | _ => st
  end.

(** A tick of three records whose second fetch throws. *)
Definition secondFetchThrows : Tick :=
  mkTick (TotalIs 3)
    (fun i => if i =? 1 then FetchThrows else FetchData (Fields "0xaa" 12 0)).

End Streams.

(* ===================================================================== *)
(** ** Concrete funds scenarios                                           *)
(* ===================================================================== *)

Module FundsScenarios.

Import SpectrumMarket Ledger SpectrumFunds LedgerScenarios.
Local Open Scope N_scope.

(** The contract as Alice deployed it, holding Bob's grant of [deviceAA]
    (2400 MHz for 60 s from second 100) and his payment. *)
Definition afterBobPaid : Contract :=
  mkContract alice (granted (mkMsg bob 100) (2 * MIN_PRICE) deviceAA 2400 60 initial)
    (2 * MIN_PRICE) [].

(** Bob grants, tries both withdrawals, and revokes. *)
Definition bobsCalls : list Call :=
  [GrantAccess (mkMsg bob 100) (2 * MIN_PRICE) deviceAA 2400 60;
   Withdraw (mkMsg bob 110) true;
   EmergencyWithdraw (mkMsg bob 120) true;
   RevokeAccess (mkMsg bob 130) deviceAA].

(** Bob grants and the owner withdraws twice, with a grant in between. *)
Definition withdrawals : list Call :=
  [GrantAccess (mkMsg bob 100) (2 * MIN_PRICE) deviceAA 2400 60;
   Withdraw (mkMsg alice 110) true;
   GrantAccess (mkMsg bob 200) MIN_PRICE deviceAA 2400 10;
   Withdraw (mkMsg alice 210) true].

(** Calls that are not about [deviceAA]. *)
Definition otherCalls : list Call :=
  [GrantAccess (mkMsg alice 100) MIN_PRICE 171 2400 60;
   Withdraw (mkMsg alice 110) true;
   RevokeAccess (mkMsg alice 120) 171].

End FundsScenarios.

(* ===================================================================== *)
(** ** Facts about the ledger contract                                    *)
(* ===================================================================== *)

Module MarketFacts.

Import SpectrumMarket Ledger LedgerScenarios.
Local Open Scope N_scope.

Ltac exec_unfold :=
  unfold bind, revert_if, checked_add, load_grant, store_grant, delete_grant,
    load_totalCollected, store_totalCollected, emit, ret, revert in *.

(** [grantAccess], path by path. *)
Lemma grantAccess_body m v d f dur s :
  grantAccess m v d f dur s =
    if v <? MIN_PRICE then (Revert InsufficientPayment, s)
    else if (dur =? 0) || (3600 <? dur) then (Revert InvalidDuration, s)
    else if f =? 0 then (Revert InvalidFrequency, s)
    else if block_timestamp m + dur <=? uint256_max then
      if totalCollected s + v <=? uint256_max then
        (Done tt, granted m v d f dur s)
      else
        (Revert Panic,
         mkStorage (activeGrants (granted m v d f dur s)) (totalCollected s) (events s))
    else (Revert Panic, s).
Proof.
  unfold grantAccess, granted. exec_unfold.
  destruct (v <? MIN_PRICE); [done|].
  destruct ((dur =? 0) || (3600 <? dur)); [done|].
  destruct (f =? 0); [done|].
  destruct (block_timestamp m + dur <=? uint256_max); [|done].
  simpl. destruct (totalCollected s + v <=? uint256_max); done.
Qed.

(** [revokeAccess], path by path. *)
Lemma revokeAccess_body m d s :
  revokeAccess m d s =
    if negb (provider (lookupGrant d s) =? msg_sender m) then (Revert NotProvider, s)
    else if expiresAt (lookupGrant d s) <=? block_timestamp m then (Revert GrantExpired, s)
    else (Done tt, revoked m d s).
Proof.
  unfold revokeAccess, revoked. exec_unfold.
  destruct (negb (provider (lookupGrant d s) =? msg_sender m)); [done|].
  destruct (expiresAt (lookupGrant d s) <=? block_timestamp m); done.
Qed.

Lemma transact_done {A} (c : Exec A) s a s' :
  c s = (Done a, s') → transact c s = (Done a, s').
Proof. unfold transact. by intros ->. Qed.

Lemma transact_revert {A} (c : Exec A) s e s' :
  c s = (Revert e, s') → transact c s = (Revert e, s).
Proof. unfold transact. by intros ->. Qed.

(** A transaction that reverts leaves the storage it started from. *)
Lemma transact_revert_storage {A} (c : Exec A) s e s' :
  transact c s = (Revert e, s') → s' = s.
Proof.
  unfold transact. destruct (c s) as [[a|e'] s'']; intros H; by simplify_eq.
Qed.

Lemma transact_grantAccess_done m v d f dur s s' :
  transact (grantAccess m v d f dur) s = (Done tt, s') → s' = granted m v d f dur s.
Proof.
  unfold transact. rewrite grantAccess_body.
  repeat case_match; intros; by simplify_eq.
Qed.

Lemma transact_revokeAccess_done m d s s' :
  transact (revokeAccess m d) s = (Done tt, s') → s' = revoked m d s.
Proof.
  unfold transact. rewrite revokeAccess_body.
  repeat case_match; intros; by simplify_eq.
Qed.

Lemma getGrant_granted m v d f dur s :
  getGrant d (granted m v d f dur s)
  = mkGrant (msg_sender m) (uint96 v) f (uint32 (block_timestamp m + dur)).
Proof.
  unfold getGrant, lookupGrant, granted. simpl. by rewrite lookup_insert_eq.
Qed.

Lemma getGrant_granted_ne m v d d' f dur s :
  d ≠ d' → getGrant d' (granted m v d f dur s) = getGrant d' s.
Proof.
  intros Hne. unfold getGrant, lookupGrant, granted. simpl.
  by rewrite lookup_insert_ne.
Qed.

Lemma getGrant_revoked m d s : getGrant d (revoked m d s) = zeroGrant.
Proof.
  unfold getGrant, lookupGrant, revoked. simpl. by rewrite lookup_delete_eq.
Qed.

Lemma getGrant_revoked_ne m d d' s :
  d ≠ d' → getGrant d' (revoked m d s) = getGrant d' s.
Proof.
  intros Hne. unfold getGrant, lookupGrant, revoked. simpl.
  by rewrite lookup_delete_ne.
Qed.

(** A call for one device leaves the records of the others. *)
Lemma execute_other_device c d s :
  callDevice c ≠ d → getGrant d (snd (execute c s)) = getGrant d s.
Proof.
  intros Hne. destruct c as [m v d0 f dur | m d0]; simpl in *.
  - destruct (transact (grantAccess m v d0 f dur) s) as [[[]|e] s'] eqn:E; simpl.
    + apply transact_grantAccess_done in E as ->. by apply getGrant_granted_ne.
    + by apply transact_revert_storage in E as ->.
  - destruct (transact (revokeAccess m d0) s) as [[[]|e] s'] eqn:E; simpl.
    + apply transact_revokeAccess_done in E as ->. by apply getGrant_revoked_ne.
    + by apply transact_revert_storage in E as ->.
Qed.

Lemma execute_revert c s e : fst (execute c s) = Revert e → snd (execute c s) = s.
Proof.
  destruct (execute c s) as [o s'] eqn:E. simpl. intros ->.
  destruct c; simpl in E; by apply transact_revert_storage in E.
Qed.

Lemma leavesDevice_getGrant d calls s :
  leavesDevice d calls s → getGrant d (executeAll calls s) = getGrant d s.
Proof.
  revert s. induction calls as [|c rest IH]; intros s; simpl; [done|].
  intros [Hc Hrest]. unfold executeAll in *. rewrite (IH _ Hrest).
  destruct Hc as [Hne | [e He]].
  - by apply execute_other_device.
  - by rewrite (execute_revert _ _ _ He).
Qed.

Lemma executeAll_app l1 l2 s :
  executeAll (l1 ++ l2) s = executeAll l2 (executeAll l1 s).
Proof. unfold executeAll. apply foldl_app. Qed.

(** *** Overwrite on grant *)

(** C4, as amended: whatever calls came before, a successful [grantAccess]
    by caller [c] with payment [v] leaves for the device exactly the record
    [{provider: c, paidAmount: v mod 2^96, frequency, expiresAt: (now +
    duration) mod 2^32}], built from this call's fields alone, and it is what
    [getGrant] returns after any later calls that revert or target other
    devices; [totalCollected] grows by [v].  When [v < 2^96] and
    [now + duration < 2^32] the record is [{c, v, frequency, now + duration}]. *)
Theorem grantAccess_latest_call_determines_grant
    (d : N) (pre post : list Call) (m : Msg) (v f dur : N) (s s2 : Storage) :
  transact (grantAccess m v d f dur) (executeAll pre s) = (Done tt, s2) →
  leavesDevice d post s2 →
  getGrant d (executeAll (pre ++ CallGrant m v d f dur :: post) s)
    = mkGrant (msg_sender m) (uint96 v) f (uint32 (block_timestamp m + dur))
  ∧ totalCollected s2 = totalCollected (executeAll pre s) + v
  ∧ (v < 2 ^ 96 → block_timestamp m + dur < 2 ^ 32 →
     getGrant d (executeAll (pre ++ CallGrant m v d f dur :: post) s)
       = mkGrant (msg_sender m) v f (block_timestamp m + dur)).
Proof.
  intros Hcall Hpost.
  assert (Hfinal : executeAll (pre ++ CallGrant m v d f dur :: post) s = executeAll post s2).
  { rewrite executeAll_app. unfold executeAll at 1. simpl.
    fold (executeAll post). by rewrite Hcall. }
  rewrite Hfinal, (leavesDevice_getGrant _ _ _ Hpost).
  apply transact_grantAccess_done in Hcall as ->.
  rewrite getGrant_granted. split; [done|]. split; [done|].
  intros Hv Ht. unfold uint96, uint32.
  by rewrite !N.mod_small.
Qed.

Lemma grantAccess_latest_call_witness :
  transact (grantAccess aliceNow MIN_PRICE deviceAA 2400 10) (executeAll [bobGrants] initial)
    = (Done tt, granted aliceNow MIN_PRICE deviceAA 2400 10 (executeAll [bobGrants] initial))
  ∧ leavesDevice deviceAA [bobRevokes]
      (granted aliceNow MIN_PRICE deviceAA 2400 10 (executeAll [bobGrants] initial))
  ∧ getGrant deviceAA
      (executeAll ([bobGrants] ++ CallGrant aliceNow MIN_PRICE deviceAA 2400 10 :: [bobRevokes]) initial)
    = mkGrant alice MIN_PRICE 2400 210.
Proof.
  assert (H1 : transact (grantAccess aliceNow MIN_PRICE deviceAA 2400 10) (executeAll [bobGrants] initial)
    = (Done tt, granted aliceNow MIN_PRICE deviceAA 2400 10 (executeAll [bobGrants] initial))).
  { apply transact_done. rewrite grantAccess_body. vm_compute. reflexivity. }
  assert (H2 : leavesDevice deviceAA [bobRevokes]
      (granted aliceNow MIN_PRICE deviceAA 2400 10 (executeAll [bobGrants] initial))).
  { cbn [leavesDevice]. split; [|exact I]. right. exists NotProvider.
    cbn [execute bobRevokes]. unfold transact. rewrite revokeAccess_body. vm_compute. reflexivity. }
  split; [exact H1|]. split; [exact H2|].
  destruct (grantAccess_latest_call_determines_grant deviceAA [bobGrants] [bobRevokes]
              aliceNow MIN_PRICE 2400 10 initial _ H1 H2) as (_ & _ & H).
  apply H; vm_compute; reflexivity.
Defined.

(** C4 as stated fails once [now + duration] no longer fits the [uint32]
    field: five seconds before the wrap a ten-second grant succeeds and is
    stored with [expiresAt = 5]. *)
Lemma grantAccess_expiry_wraps :
  transact (grantAccess lateMsg MIN_PRICE deviceAA 2400 10) initial
    = (Done tt, granted lateMsg MIN_PRICE deviceAA 2400 10 initial)
  ∧ expiresAt (getGrant deviceAA (granted lateMsg MIN_PRICE deviceAA 2400 10 initial)) = 5
  ∧ expiresAt (getGrant deviceAA (granted lateMsg MIN_PRICE deviceAA 2400 10 initial))
    ≠ block_timestamp lateMsg + 10.
Proof.
  split; [|split].
  - apply transact_done. rewrite grantAccess_body. vm_compute. reflexivity.
  - rewrite getGrant_granted. vm_compute. reflexivity.
  - rewrite getGrant_granted. by vm_compute.
Qed.

(** *** Reading a grant *)

Lemma canTransmit_true m d s :
  canTransmit m d s = true ↔ block_timestamp m < expiresAt (getGrant d s).
Proof. unfold canTransmit, getGrant. cbn zeta. apply N.ltb_lt. Qed.

Lemma getGrant_absent d s : activeGrants s !! d = None → getGrant d s = zeroGrant.
Proof. unfold getGrant, lookupGrant. by intros ->. Qed.

(** Only a grant on the device creates its record. *)
Lemma execute_keeps_absent c d s :
  isGrantOn d c = false → activeGrants s !! d = None →
  activeGrants (snd (execute c s)) !! d = None.
Proof.
  intros Hc Hs. destruct c as [m v d0 f dur | m d0]; simpl in *.
  - apply N.eqb_neq in Hc.
    destruct (transact (grantAccess m v d0 f dur) s) as [[[]|e] s'] eqn:E; simpl.
    + apply transact_grantAccess_done in E as ->. simpl. by rewrite lookup_insert_ne.
    + by apply transact_revert_storage in E as ->.
  - destruct (transact (revokeAccess m d0) s) as [[[]|e] s'] eqn:E; simpl.
    + apply transact_revokeAccess_done in E as ->. simpl.
      destruct (decide (d0 = d)) as [->|Hne].
      * by rewrite lookup_delete_eq.
      * by rewrite lookup_delete_ne.
    + by apply transact_revert_storage in E as ->.
Qed.

Lemma executeAll_keeps_absent calls d s :
  Forall (λ c, isGrantOn d c = false) calls → activeGrants s !! d = None →
  activeGrants (executeAll calls s) !! d = None.
Proof.
  intros Hcalls. revert s. induction Hcalls as [|c rest Hc _ IH]; intros s Hs; [done|].
  unfold executeAll in *. simpl. apply IH. by apply execute_keeps_absent.
Qed.

(** On a ledger that started empty a record that is present is not the
    all-zero one: its frequency passed the check of [grantAccess]. *)
Lemma executeAll_records_nonzero calls d g :
  activeGrants (executeAll calls initial) !! d = Some g → frequency g ≠ 0.
Proof.
  assert (Hinv : ∀ calls s,
    (∀ d g, activeGrants s !! d = Some g → frequency g ≠ 0) →
    ∀ d g, activeGrants (executeAll calls s) !! d = Some g → frequency g ≠ 0).
  { clear. induction calls as [|c rest IH]; intros s Hs; [done|].
    unfold executeAll in *. simpl. apply IH. clear IH. intros d g.
    destruct c as [m v d0 f dur | m d0]; simpl.
    - destruct (transact (grantAccess m v d0 f dur) s) as [[[]|e] s'] eqn:E; simpl.
      + assert (Hf : f ≠ 0).
        { unfold transact in E. rewrite grantAccess_body in E.
          destruct (f =? 0) eqn:Ef; [|by apply N.eqb_neq].
          repeat case_match; simplify_eq. }
        apply transact_grantAccess_done in E as ->. simpl.
        destruct (decide (d0 = d)) as [->|Hne].
        * rewrite lookup_insert_eq. intros [= <-]. done.
        * rewrite lookup_insert_ne by done. apply Hs.
      + apply transact_revert_storage in E as ->. apply Hs.
    - destruct (transact (revokeAccess m d0) s) as [[[]|e] s'] eqn:E; simpl.
      + apply transact_revokeAccess_done in E as ->. simpl.
        destruct (decide (d0 = d)) as [->|Hne].
        * by rewrite lookup_delete_eq.
        * rewrite lookup_delete_ne by done. apply Hs.
      + apply transact_revert_storage in E as ->. apply Hs. }
  apply Hinv. intros d' g'. unfold initial. simpl. by rewrite lookup_empty.
Qed.

(** C5: [canTransmit] is true exactly when the device has a record whose
    [expiresAt] is strictly after the current time (and then the record is
    not the all-zero one); it is false for a device no call has ever
    granted, and for one whose grant has expired. *)
Theorem canTransmit_iff_active (m : Msg) (d : N) (s : Storage) :
  (canTransmit m d s = true
     ↔ grantExists d s ∧ block_timestamp m < expiresAt (getGrant d s))
  ∧ (canTransmit m d s = true → getGrant d s ≠ zeroGrant)
  ∧ (∀ calls, Forall (λ c, isGrantOn d c = false) calls →
       canTransmit m d (executeAll calls initial) = false)
  ∧ (expiresAt (getGrant d s) ≤ block_timestamp m → canTransmit m d s = false).
Proof.
  split; [|split; [|split]].
  - rewrite canTransmit_true. split; [|tauto].
    intros Hlt. split; [|done]. unfold grantExists.
    destruct (activeGrants s !! d) as [g|] eqn:E; [by eexists|].
    rewrite (getGrant_absent _ _ E) in Hlt. simpl in Hlt. lia.
  - rewrite canTransmit_true. intros Hlt Hzero. rewrite Hzero in Hlt. simpl in Hlt. lia.
  - intros calls Hcalls. apply not_true_is_false. rewrite canTransmit_true.
    rewrite getGrant_absent; [simpl; lia|].
    by apply executeAll_keeps_absent.
  - intros Hle. apply not_true_is_false. rewrite canTransmit_true. lia.
Qed.

Lemma canTransmit_iff_active_witness :
  canTransmit aliceCalls deviceAA aliceHolds = true
  ∧ canTransmit bobLate deviceAA aliceHolds = false
  ∧ canTransmit aliceCalls deviceAA (executeAll [bobRevokes] initial) = false.
Proof.
  split; [|split].
  - apply (canTransmit_iff_active aliceCalls deviceAA aliceHolds).
    split; [by eexists | by vm_compute].
  - apply (canTransmit_iff_active bobLate deviceAA aliceHolds).
    unfold aliceHolds. rewrite getGrant_granted. by vm_compute.
  - apply (proj1 (proj2 (proj2 (canTransmit_iff_active aliceCalls deviceAA initial)))).
    by repeat constructor.
Defined.

(** *** Validation of a grant *)

(** C6, as amended: the three checks run in the order payment, duration,
    frequency, and the first that fails names the error.  A payment below
    0.001 ether reverts with [InsufficientPayment]; with a sufficient
    payment, a duration of 0 or above 3600 reverts with [InvalidDuration];
    with a sufficient payment and a duration in 1..3600, frequency 0 reverts
    with [InvalidFrequency]; and with a sufficient payment and a non-zero
    frequency, duration 3600 succeeds as long as neither [uint256] sum
    overflows. *)
Theorem grantAccess_validation (m : Msg) (v d f dur : N) (s : Storage) :
  (v < MIN_PRICE →
     transact (grantAccess m v d f dur) s = (Revert InsufficientPayment, s))
  ∧ (MIN_PRICE ≤ v → dur = 0 ∨ 3600 < dur →
     transact (grantAccess m v d f dur) s = (Revert InvalidDuration, s))
  ∧ (MIN_PRICE ≤ v → 0 < dur ≤ 3600 → f = 0 →
     transact (grantAccess m v d f dur) s = (Revert InvalidFrequency, s))
  ∧ (MIN_PRICE ≤ v → f ≠ 0 →
     block_timestamp m + 3600 ≤ uint256_max →
     totalCollected s + v ≤ uint256_max →
     ∃ s', transact (grantAccess m v d f 3600) s = (Done tt, s')).
Proof.
  unfold transact. rewrite !grantAccess_body.
  repeat split.
  - intros Hv. apply N.ltb_lt in Hv. by rewrite Hv.
  - intros Hv Hdur. apply N.ltb_ge in Hv. rewrite Hv.
    assert ((dur =? 0) || (3600 <? dur) = true) as ->; [|done].
    apply orb_true_iff. rewrite N.eqb_eq, N.ltb_lt. done.
  - intros Hv Hdur ->. apply N.ltb_ge in Hv. rewrite Hv.
    assert ((dur =? 0) || (3600 <? dur) = false) as ->; [|done].
    apply orb_false_iff. rewrite N.eqb_neq, N.ltb_ge. lia.
  - intros Hv Hf Ht Htc. apply N.ltb_ge in Hv. apply N.eqb_neq in Hf.
    apply N.leb_le in Ht, Htc. rewrite Hv, Hf, Ht, Htc. simpl. by eexists.
Qed.

(** The spec's scenario: too small a payment, duration 0, duration 3601
    and duration 3600. *)
Lemma grantAccess_validation_witness :
  transact (grantAccess aliceNow 0 deviceAA 2400 10) initial
    = (Revert InsufficientPayment, initial)
  ∧ transact (grantAccess aliceNow MIN_PRICE deviceAA 2400 0) initial
    = (Revert InvalidDuration, initial)
  ∧ transact (grantAccess aliceNow MIN_PRICE deviceAA 2400 3601) initial
    = (Revert InvalidDuration, initial)
  ∧ transact (grantAccess aliceNow MIN_PRICE deviceAA 0 10) initial
    = (Revert InvalidFrequency, initial)
  ∧ ∃ s', transact (grantAccess aliceNow MIN_PRICE deviceAA 2400 3600) initial = (Done tt, s').
Proof.
  split; [|split; [|split; [|split]]].
  - apply (grantAccess_validation aliceNow 0 deviceAA 2400 10 initial). by vm_compute.
  - apply (grantAccess_validation aliceNow MIN_PRICE deviceAA 2400 0 initial);
      [by vm_compute | by left].
  - apply (grantAccess_validation aliceNow MIN_PRICE deviceAA 2400 3601 initial);
      [by vm_compute | right; by vm_compute].
  - apply (grantAccess_validation aliceNow MIN_PRICE deviceAA 0 10 initial);
      [by vm_compute | split; by vm_compute | done].
  - apply (grantAccess_validation aliceNow MIN_PRICE deviceAA 2400 3600 initial);
      by vm_compute.
Defined.

(** C6 as stated fails where two checks would fire: a call with no payment
    and duration 0 reverts with [InsufficientPayment], not [InvalidDuration]. *)
Lemma grantAccess_payment_checked_first :
  transact (grantAccess aliceNow 0 deviceAA 2400 0) initial
    = (Revert InsufficientPayment, initial)
  ∧ fst (transact (grantAccess aliceNow 0 deviceAA 2400 0) initial) ≠ Revert InvalidDuration.
Proof.
  assert (H : transact (grantAccess aliceNow 0 deviceAA 2400 0) initial
              = (Revert InsufficientPayment, initial)).
  { unfold transact. rewrite grantAccess_body. vm_compute. reflexivity. }
  split; [exact H|]. by rewrite H.
Qed.

(** *** Revocation *)

Lemma revokeAccess_not_provider m d s :
  provider (getGrant d s) ≠ msg_sender m →
  transact (revokeAccess m d) s = (Revert NotProvider, s).
Proof.
  intros Hp. unfold transact. rewrite revokeAccess_body. unfold getGrant in Hp.
  apply N.eqb_neq in Hp. by rewrite Hp.
Qed.

Lemma revokeAccess_expired m d s :
  provider (getGrant d s) = msg_sender m →
  expiresAt (getGrant d s) ≤ block_timestamp m →
  transact (revokeAccess m d) s = (Revert GrantExpired, s).
Proof.
  intros Hp Ht. unfold transact. rewrite revokeAccess_body. unfold getGrant in Hp, Ht.
  apply N.eqb_eq in Hp. apply N.leb_le in Ht. by rewrite Hp, Ht.
Qed.

Lemma revokeAccess_active m d s :
  provider (getGrant d s) = msg_sender m →
  block_timestamp m < expiresAt (getGrant d s) →
  transact (revokeAccess m d) s = (Done tt, revoked m d s).
Proof.
  intros Hp Ht. unfold transact. rewrite revokeAccess_body. unfold getGrant in Hp, Ht.
  apply N.eqb_eq in Hp. apply N.leb_gt in Ht. by rewrite Hp, Ht.
Qed.

(** C7, as amended: the provider check runs before the expiry check.  A
    caller other than the stored [provider] gets [NotProvider], expired
    grant or not; the stored provider gets [GrantExpired] once the current
    time has reached [expiresAt]; and the stored provider of a grant still
    active succeeds, which deletes the record and emits [AccessRevoked]. *)
Theorem revokeAccess_checks (m : Msg) (d : N) (s : Storage) :
  (provider (getGrant d s) ≠ msg_sender m →
     transact (revokeAccess m d) s = (Revert NotProvider, s))
  ∧ (provider (getGrant d s) = msg_sender m →
     expiresAt (getGrant d s) ≤ block_timestamp m →
     transact (revokeAccess m d) s = (Revert GrantExpired, s))
  ∧ (provider (getGrant d s) = msg_sender m →
     block_timestamp m < expiresAt (getGrant d s) →
     ∃ s', transact (revokeAccess m d) s = (Done tt, s')
           ∧ activeGrants s' = delete d (activeGrants s)
           ∧ getGrant d s' = zeroGrant
           ∧ totalCollected s' = totalCollected s
           ∧ events s' = events s ++ [AccessRevoked d (msg_sender m) (block_timestamp m)]).
Proof.
  split; [|split].
  - apply revokeAccess_not_provider.
  - apply revokeAccess_expired.
  - intros Hp Ht. exists (revoked m d s).
    split; [by apply revokeAccess_active|].
    split; [done|]. split; [apply getGrant_revoked|]. by split.
Qed.

Lemma revokeAccess_checks_witness :
  transact (revokeAccess bobLate deviceAA) aliceHolds = (Revert NotProvider, aliceHolds)
  ∧ transact (revokeAccess (mkMsg alice 210) deviceAA) aliceHolds
    = (Revert GrantExpired, aliceHolds)
  ∧ ∃ s', transact (revokeAccess aliceCalls deviceAA) aliceHolds = (Done tt, s')
          ∧ getGrant deviceAA s' = zeroGrant.
Proof.
  assert (Hg : getGrant deviceAA aliceHolds = mkGrant alice MIN_PRICE 2400 210).
  { unfold aliceHolds. rewrite getGrant_granted. vm_compute. reflexivity. }
  split; [|split].
  - apply (revokeAccess_checks bobLate deviceAA aliceHolds). by rewrite Hg.
  - apply (revokeAccess_checks (mkMsg alice 210) deviceAA aliceHolds);
      rewrite Hg; [done | by vm_compute].
  - destruct (revokeAccess_checks aliceCalls deviceAA aliceHolds) as (_ & _ & H).
    destruct H as (s' & Hs' & _ & Hz & _); [by rewrite Hg | rewrite Hg; by vm_compute |].
    exists s'. split; [exact Hs' | exact Hz].
Defined.

(** C7 as stated fails for a stranger calling after expiry: the claim asks
    for [GrantExpired] regardless of the caller, the contract answers
    [NotProvider]. *)
Lemma revokeAccess_stranger_after_expiry :
  provider (getGrant deviceAA aliceHolds) ≠ msg_sender bobLate
  ∧ expiresAt (getGrant deviceAA aliceHolds) ≤ block_timestamp bobLate
  ∧ transact (revokeAccess bobLate deviceAA) aliceHolds = (Revert NotProvider, aliceHolds)
  ∧ fst (transact (revokeAccess bobLate deviceAA) aliceHolds) ≠ Revert GrantExpired.
Proof.
  assert (Hg : getGrant deviceAA aliceHolds = mkGrant alice MIN_PRICE 2400 210).
  { unfold aliceHolds. rewrite getGrant_granted. vm_compute. reflexivity. }
  assert (H : transact (revokeAccess bobLate deviceAA) aliceHolds
              = (Revert NotProvider, aliceHolds)).
  { apply revokeAccess_not_provider. by rewrite Hg. }
  rewrite Hg, H. repeat split; by vm_compute.
Qed.

(** C8: when the provider of an active grant revokes it, the call succeeds
    and [getGrant] reads all-zero fields afterwards (the record is gone);
    any further [revokeAccess] by the same caller reverts and changes
    nothing, with [NotProvider] for every caller but the zero address, since
    the caller is compared with the zeroed [provider] field. *)
Theorem revokeAccess_twice (m m' : Msg) (d : N) (s : Storage) :
  provider (getGrant d s) = msg_sender m →
  block_timestamp m < expiresAt (getGrant d s) →
  msg_sender m' = msg_sender m →
  ∃ s', transact (revokeAccess m d) s = (Done tt, s')
        ∧ getGrant d s' = zeroGrant
        ∧ ¬ grantExists d s'
        ∧ ∃ e, transact (revokeAccess m' d) s' = (Revert e, s')
               ∧ (msg_sender m ≠ 0 → e = NotProvider).
Proof.
  intros Hp Ht Hsame. exists (revoked m d s).
  split; [by apply revokeAccess_active|].
  split; [apply getGrant_revoked|]. split.
  - unfold grantExists, revoked. simpl. rewrite lookup_delete_eq. by intros [? ?].
  - destruct (decide (msg_sender m = 0)) as [Hz|Hnz].
    + exists GrantExpired. split; [|done].
      apply revokeAccess_expired; rewrite getGrant_revoked; simpl; [congruence | lia].
    + exists NotProvider. split; [|done].
      apply revokeAccess_not_provider. rewrite getGrant_revoked. simpl. congruence.
Qed.

Lemma revokeAccess_twice_witness :
  provider (getGrant deviceAA aliceHolds) = msg_sender aliceCalls
  ∧ block_timestamp aliceCalls < expiresAt (getGrant deviceAA aliceHolds)
  ∧ ∃ s', transact (revokeAccess aliceCalls deviceAA) aliceHolds = (Done tt, s')
          ∧ getGrant deviceAA s' = zeroGrant
          ∧ transact (revokeAccess aliceCallsAgain deviceAA) s' = (Revert NotProvider, s').
Proof.
  assert (Hg : getGrant deviceAA aliceHolds = mkGrant alice MIN_PRICE 2400 210).
  { unfold aliceHolds. rewrite getGrant_granted. vm_compute. reflexivity. }
  assert (H1 : provider (getGrant deviceAA aliceHolds) = msg_sender aliceCalls).
  { rewrite Hg. reflexivity. }
  assert (H2 : block_timestamp aliceCalls < expiresAt (getGrant deviceAA aliceHolds)).
  { rewrite Hg. vm_compute. reflexivity. }
  split; [exact H1|]. split; [exact H2|].
  destruct (revokeAccess_twice aliceCalls aliceCallsAgain deviceAA aliceHolds H1 H2 eq_refl)
    as (s' & Hrun & Hzero & _ & e & Hagain & He).
  exists s'. split; [exact Hrun|]. split; [exact Hzero|].
  rewrite <- He; [exact Hagain|]. vm_compute. discriminate.
Defined.

(** *** Reverts change nothing *)

(** C10: when the body of [grantAccess] stops with [InsufficientPayment],
    [InvalidDuration] or [InvalidFrequency], or the body of [revokeAccess]
    with [NotProvider] or [GrantExpired], the storage at that point is the
    storage the call started from: every record, [totalCollected] and the
    event log are as before, so the revert has nothing to undo and no event
    was emitted. *)
Theorem revert_leaves_ledger_unchanged
    (m : Msg) (v d f dur : N) (s s' : Storage) (e : Error) :
  (grantAccess m v d f dur s = (Revert e, s') →
   e = InsufficientPayment ∨ e = InvalidDuration ∨ e = InvalidFrequency →
   s' = s ∧ transact (grantAccess m v d f dur) s = (Revert e, s))
  ∧ (revokeAccess m d s = (Revert e, s') →
     e = NotProvider ∨ e = GrantExpired →
     s' = s ∧ transact (revokeAccess m d) s = (Revert e, s)).
Proof.
  split.
  - intros Hrun He. split; [|by eapply transact_revert].
    rewrite grantAccess_body in Hrun.
    repeat case_match; simplify_eq; try done.
    all: destruct He as [?|[?|?]]; discriminate.
  - intros Hrun He. split; [|by eapply transact_revert].
    rewrite revokeAccess_body in Hrun.
    repeat case_match; by simplify_eq.
Qed.

Lemma revert_leaves_ledger_unchanged_witness :
  grantAccess aliceNow 0 deviceAA 2400 10 aliceHolds = (Revert InsufficientPayment, aliceHolds)
  ∧ revokeAccess bobLate deviceAA aliceHolds = (Revert NotProvider, aliceHolds)
  ∧ transact (grantAccess aliceNow 0 deviceAA 2400 10) aliceHolds
    = (Revert InsufficientPayment, aliceHolds)
  ∧ transact (revokeAccess bobLate deviceAA) aliceHolds = (Revert NotProvider, aliceHolds).
Proof.
  assert (H1 : grantAccess aliceNow 0 deviceAA 2400 10 aliceHolds
               = (Revert InsufficientPayment, aliceHolds)).
  { rewrite grantAccess_body. vm_compute. reflexivity. }
  assert (H2 : revokeAccess bobLate deviceAA aliceHolds = (Revert NotProvider, aliceHolds)).
  { rewrite revokeAccess_body. vm_compute. reflexivity. }
  split; [exact H1|]. split; [exact H2|]. split.
  - apply (revert_leaves_ledger_unchanged aliceNow 0 deviceAA 2400 10 aliceHolds aliceHolds
             InsufficientPayment); [exact H1 | by left].
  - apply (revert_leaves_ledger_unchanged bobLate 0 deviceAA 2400 10 aliceHolds aliceHolds
             NotProvider); [exact H2 | by left].
Defined.

(** X18: The one revert that does find the storage changed is the overflow of
    [totalCollected]: the record has been written by then, and it is the
    transaction's roll-back that removes it. *)
Lemma grantAccess_panic_after_write m v d f dur s :
  MIN_PRICE ≤ v → 0 < dur ≤ 3600 → f ≠ 0 →
  block_timestamp m + dur ≤ uint256_max →
  uint256_max < totalCollected s + v →
  ∃ s', grantAccess m v d f dur s = (Revert Panic, s')
        ∧ getGrant d s' = getGrant d (granted m v d f dur s)
        ∧ transact (grantAccess m v d f dur) s = (Revert Panic, s).
Proof.
  intros Hv Hdur Hf Ht Htc. unfold transact. rewrite grantAccess_body.
  apply N.ltb_ge in Hv. apply N.eqb_neq in Hf. apply N.leb_le in Ht.
  apply N.leb_gt in Htc.
  assert ((dur =? 0) || (3600 <? dur) = false) as Hd.
  { apply orb_false_iff. rewrite N.eqb_neq, N.ltb_ge. lia. }
  rewrite Hv, Hd, Hf, Ht, Htc. eexists. split; [done|]. split; done.
Qed.

End MarketFacts.

(* ===================================================================== *)
(** ** Facts about the provider                                           *)
(* ===================================================================== *)

Module ProviderFacts.

Import SpectrumProvider AsyncPoller ProviderScenarios PollerInvariant.
Local Open Scope Z_scope.

(** *** The decision, case by case *)

Section DecisionFacts.

Variable MIN_SNR : Z.

Lemma currentStateOf_insert d st (ds : gmap string DeviceState) :
  currentStateOf d (<[d := st]> ds) = st.
Proof. unfold currentStateOf. by rewrite lookup_insert_eq. Qed.

Lemma currentStateOf_insert_ne d d' st (ds : gmap string DeviceState) :
  d ≠ d' → currentStateOf d' (<[d := st]> ds) = currentStateOf d' ds.
Proof. intros Hne. unfold currentStateOf. by rewrite lookup_insert_ne. Qed.

Lemma handle_grant env d snr bid (ds : gmap string DeviceState) :
  MIN_SNR ≤ snr →
  hasGrant (currentStateOf d ds) = false ∨ grantExpires (currentStateOf d ds) < now env →
  handleSignalData MIN_SNR env (Fields d snr bid) ds
  = (Grant (GrantAccessTx d 2400 10 GRANT_VALUE 200000),
     runTask (GrantTask d (currentStateOf d ds)) (writeContract env)
       (<[d := mkDeviceState true (now env + 10000) snr]> ds)).
Proof.
  intros Hsnr Hcase. unfold handleSignalData, decideAction.
  apply Z.leb_le in Hsnr. rewrite Hsnr.
  assert (negb (hasGrant (currentStateOf d ds))
          || (grantExpires (currentStateOf d ds) <? now env) = true) as ->; [|done].
  apply orb_true_iff. destruct Hcase as [->|Hexp]; [by left|].
  right. by apply Z.ltb_lt.
Qed.

Lemma handle_revoke env d snr bid (ds : gmap string DeviceState) :
  snr < MIN_SNR →
  hasGrant (currentStateOf d ds) = true →
  now env ≤ grantExpires (currentStateOf d ds) →
  handleSignalData MIN_SNR env (Fields d snr bid) ds
  = (Revoke (RevokeAccessTx d 100000), <[d := mkDeviceState false 0 snr]> ds).
Proof.
  intros Hsnr Hhas Hexp. unfold handleSignalData, decideAction.
  apply Z.leb_gt in Hsnr. apply Z.ltb_ge in Hexp. rewrite Hsnr, Hhas, Hexp.
  simpl. by destruct (writeContract env).
Qed.

Lemma handle_hold env d snr bid (ds : gmap string DeviceState) :
  MIN_SNR ≤ snr →
  hasGrant (currentStateOf d ds) = true →
  now env ≤ grantExpires (currentStateOf d ds) →
  handleSignalData MIN_SNR env (Fields d snr bid) ds = (NoAction, ds).
Proof.
  intros Hsnr Hhas Hexp. unfold handleSignalData, decideAction.
  apply Z.leb_le in Hsnr. apply Z.ltb_ge in Hexp. by rewrite Hsnr, Hhas, Hexp.
Qed.

Lemma handle_idle env d snr bid (ds : gmap string DeviceState) :
  snr < MIN_SNR →
  hasGrant (currentStateOf d ds) = false ∨ grantExpires (currentStateOf d ds) < now env →
  handleSignalData MIN_SNR env (Fields d snr bid) ds = (NoAction, ds).
Proof.
  intros Hsnr Hcase. unfold handleSignalData, decideAction.
  apply Z.leb_gt in Hsnr. rewrite Hsnr. simpl.
  destruct Hcase as [->|Hexp]; [done|].
  apply Z.ltb_lt in Hexp. rewrite Hexp. by rewrite andb_false_r.
Qed.

(** X17: A grant whose submission throws leaves the device as it found it. *)
Lemma failed_grant_is_rolled_back env d snr bid (ds : gmap string DeviceState) :
  MIN_SNR ≤ snr →
  hasGrant (currentStateOf d ds) = false ∨ grantExpires (currentStateOf d ds) < now env →
  writeContract env = TxThrows →
  ∀ d', currentStateOf d' (snd (handleSignalData MIN_SNR env (Fields d snr bid) ds))
        = currentStateOf d' ds.
Proof.
  intros Hsnr Hcase Hthrows d'. rewrite handle_grant by done. rewrite Hthrows. simpl.
  destruct (decide (d = d')) as [->|Hne].
  - by rewrite currentStateOf_insert.
  - by rewrite !currentStateOf_insert_ne.
Qed.

End DecisionFacts.




(** The same scenario from the log to the actions: one tick over four
    published records, each handed to [handleSignalData]. *)
Lemma scenario_through_the_poller :
  actions (handlerState
             (pollTick (handleNext 10 steadyWorld) fourSamples
                (start (mkProvider ∅ [] 0))))
  = [Grant (GrantAccessTx device 2400 10 GRANT_VALUE 200000);
     NoAction;
     Revoke (RevokeAccessTx device 100000);
     Grant (GrantAccessTx device 2400 10 GRANT_VALUE 200000)]
  ∧ dispatched (pollTick (handleNext 10 steadyWorld) fourSamples
                  (start (mkProvider ∅ [] 0)))
    = [0; 1; 2; 3].
Proof. vm_compute. split; reflexivity. Qed.

(** C2, the revoke half, fails in the code: a revoke whose submission throws
    is answered by a log line only.  The device stays at [hasGrant = false],
    [grantExpires = 0], which is not the state it had, and the next poor
    sample takes no action instead of trying the revoke again. *)
Theorem failed_revoke_is_not_rolled_back
    (MIN_SNR : Z) (env next : Env) (d : string) (snr snr' bid bid' : Z)
    (ds : gmap string DeviceState) :
  hasGrant (currentStateOf d ds) = true →
  now env ≤ grantExpires (currentStateOf d ds) →
  snr < MIN_SNR →
  snr' < MIN_SNR →
  writeContract env = TxThrows →
  fst (handleSignalData MIN_SNR env (Fields d snr bid) ds)
    = Revoke (RevokeAccessTx d 100000)
  ∧ currentStateOf d (snd (handleSignalData MIN_SNR env (Fields d snr bid) ds))
    = mkDeviceState false 0 snr
  ∧ currentStateOf d (snd (handleSignalData MIN_SNR env (Fields d snr bid) ds))
    ≠ currentStateOf d ds
  ∧ fst (handleSignalData MIN_SNR next (Fields d snr' bid')
           (snd (handleSignalData MIN_SNR env (Fields d snr bid) ds)))
    = NoAction.
Proof.
  intros Hhas Hexp Hsnr Hsnr' Hthrows.
  rewrite handle_revoke by done. simpl. rewrite currentStateOf_insert.
  split; [done|]. split; [done|]. split.
  - intros Heq. rewrite <- Heq in Hhas. discriminate.
  - rewrite handle_idle; [done|done|]. left. by rewrite currentStateOf_insert.
Qed.

Lemma failed_revoke_is_not_rolled_back_witness :
  fst (handleSignalData 10 revokeThrows (sample 8) {[device := holding]})
    = Revoke (RevokeAccessTx device 100000)
  ∧ currentStateOf device
      (snd (handleSignalData 10 revokeThrows (sample 8) {[device := holding]}))
    = mkDeviceState false 0 8
  ∧ fst (handleSignalData 10 (mkEnv 55500 TxHash) (sample 7)
           (snd (handleSignalData 10 revokeThrows (sample 8) {[device := holding]})))
    = NoAction.
Proof.
  destruct (failed_revoke_is_not_rolled_back 10 revokeThrows (mkEnv 55500 TxHash)
              device 8 7 GRANT_VALUE GRANT_VALUE {[device := holding]})
    as (H1 & H2 & _ & H4).
  - vm_compute. reflexivity.
  - vm_compute. discriminate.
  - lia.
  - lia.
  - reflexivity.
  - split; [exact H1|]. split; [exact H2|exact H4].
Defined.

(** *** The polling loop, tick after tick *)

Section PollerFacts.

Context {St : Type}.
Variable handle : RawData → St → St.

Lemma extends_refl (p : @Poller St) : extends p p.
Proof. split; [lia|]. exists []. by rewrite app_nil_r. Qed.

Lemma extends_trans (p q r : @Poller St) : extends p q → extends q r → extends p r.
Proof.
  intros [Hpq (n1 & E1 & F1)] [Hqr (n2 & E2 & F2)]. split; [lia|].
  exists (n1 ++ n2). split.
  - by rewrite E2, E1, app_assoc.
  - apply Forall_app. split; [done|].
    eapply Forall_impl; [exact F2|]. simpl. lia.
Qed.

(** The loop over ascending indices beyond the cursor keeps the invariant
    and only adds to what was dispatched. *)
Lemma pollLoop_extends getAtIndex indices (p : @Poller St) :
  StronglySorted Z.lt indices →
  Forall (λ i, lastProcessedIndex p < i) indices →
  pollerInv p →
  pollerInv (pollLoop handle getAtIndex indices p)
  ∧ extends p (pollLoop handle getAtIndex indices p).
Proof.
  revert p. induction indices as [|i rest IH]; intros p Hsorted Hbeyond Hinv; simpl.
  - split; [done | apply extends_refl].
  - apply StronglySorted_cons in Hsorted as [Hi Hrest].
    apply Forall_cons in Hbeyond as [Hpi Hbeyond].
    destruct (getAtIndex i) as [| |data].
    + split; [done | apply extends_refl].
    + by apply IH.
    + destruct Hinv as (Hs & Hle & Hc).
      set (q := mkPoller i (dispatched p ++ [i]) (handle data (handlerState p))).
      assert (Hq : pollerInv q).
      { unfold pollerInv, q. simpl. split; [|split; [|lia]].
        - apply StronglySorted_app_2; [|done|repeat constructor].
          intros x1 x2 Hx1 Hx2. apply list_elem_of_singleton in Hx2 as ->.
          rewrite Forall_forall in Hle. specialize (Hle _ Hx1). simpl in Hle. lia.
        - apply Forall_app. split.
          + eapply Forall_impl; [exact Hle|]. simpl. lia.
          + repeat constructor; lia. }
      assert (Hpq : extends p q).
      { split; [simpl; lia|]. exists [i]. split; [done|]. by repeat constructor. }
      destruct (IH q Hrest Hi Hq) as [Hinv' Hext].
      split; [done|]. by eapply extends_trans.
Qed.

Lemma seqZ_sorted m n : StronglySorted Z.lt (seqZ m n).
Proof.
  remember (Z.to_nat n) as k eqn:Hk. revert m n Hk.
  induction k as [|k IH]; intros m n Hk.
  - rewrite seqZ_nil by lia. constructor.
  - rewrite seqZ_cons by lia. constructor.
    + apply IH. lia.
    + apply Forall_seqZ. lia.
Qed.

(** One tick keeps the invariant, never moves the cursor back, and
    dispatches nothing at or before the cursor it found. *)
Lemma pollTick_extends t (p : @Poller St) :
  pollerInv p → pollerInv (pollTick handle t p) ∧ extends p (pollTick handle t p).
Proof.
  intros Hinv. unfold pollTick.
  destruct (totalPublisherDataForSchema t) as [| |total];
    try (split; [done | apply extends_refl]).
  destruct (total =? 0); [split; [done | apply extends_refl]|].
  apply pollLoop_extends; [apply seqZ_sorted | | done].
  apply Forall_seqZ. lia.
Qed.

Lemma pollTicks_extends ticks (p : @Poller St) :
  pollerInv p →
  pollerInv (pollTicks handle ticks p) ∧ extends p (pollTicks handle ticks p).
Proof.
  revert p. induction ticks as [|t rest IH]; intros p Hinv; simpl.
  - split; [done | apply extends_refl].
  - destruct (pollTick_extends t p Hinv) as [Hinv1 Hext1].
    destruct (IH _ Hinv1) as [Hinv2 Hext2].
    split; [done|]. by eapply extends_trans.
Qed.

Lemma start_inv st : pollerInv (start st : @Poller St).
Proof. unfold pollerInv, start. simpl. repeat split; [constructor | constructor | lia]. Qed.

(** X16: With ticks that do not overlap, the cursor only moves forward and no
    index is dispatched twice. *)
Lemma pollTicks_forward_no_repeat ticks more st :
  lastProcessedIndex (pollTicks handle ticks (start st))
    ≤ lastProcessedIndex (pollTicks handle (ticks ++ more) (start st))
  ∧ NoDup (dispatched (pollTicks handle ticks (start st)))
  ∧ StronglySorted Z.lt (dispatched (pollTicks handle ticks (start st))).
Proof.
  destruct (pollTicks_extends ticks (start st) (start_inv st)) as [Hinv _].
  split; [|split].
  - unfold pollTicks. rewrite foldl_app.
    by destruct (pollTicks_extends more _ Hinv) as [_ [Hle _]].
  - destruct Hinv as (Hs & _ & _).
    clear -Hs. induction Hs as [|x l Hl IH Hx]; constructor; [|done].
    intros Hin. rewrite Forall_forall in Hx. specialize (Hx _ Hin). lia.
  - by destruct Hinv.
Qed.

Lemma last_nonempty_default (x : Z) l d d' :
  List.last (x :: l) d = List.last (x :: l) d'.
Proof.
  revert x. induction l as [|y l IH]; intros x; [done|].
  change (List.last (y :: l) d = List.last (y :: l) d'). apply IH.
Qed.

(** The loop when every fetch resolves to a record: all indices are
    dispatched, in order, and the cursor ends on the last. *)
Lemma pollLoop_all_fetched getAtIndex indices (p : @Poller St) :
  Forall (λ i, ∃ data, getAtIndex i = FetchData data) indices →
  dispatched (pollLoop handle getAtIndex indices p) = dispatched p ++ indices
  ∧ lastProcessedIndex (pollLoop handle getAtIndex indices p)
    = List.last indices (lastProcessedIndex p).
Proof.
  revert p. induction indices as [|i rest IH]; intros p Hall; simpl.
  - by rewrite app_nil_r.
  - apply Forall_cons in Hall as [[data Hdata] Hrest]. rewrite Hdata.
    destruct (IH (mkPoller i (dispatched p ++ [i]) (handle data (handlerState p))) Hrest)
      as [Hd Hl].
    rewrite Hd, Hl. cbn [lastProcessedIndex dispatched]. rewrite <- app_assoc.
    split; [done|]. destruct rest as [|j rest]; [done|].
    change (List.last (j :: rest) i = List.last (j :: rest) (lastProcessedIndex p)).
    apply last_nonempty_default.
Qed.

(** A fetch that throws ends the loop: the cursor stays before the index
    that threw. *)
Lemma pollLoop_throw_holds_cursor getAtIndex indices i (p : @Poller St) :
  StronglySorted Z.lt indices →
  i ∈ indices →
  getAtIndex i = FetchThrows →
  lastProcessedIndex p < i →
  lastProcessedIndex (pollLoop handle getAtIndex indices p) < i.
Proof.
  revert p. induction indices as [|j rest IH]; intros p Hsorted Hin Hthrow Hlt.
  - by apply elem_of_nil in Hin.
  - apply StronglySorted_cons in Hsorted as [Hj Hrest]. simpl.
    apply elem_of_cons in Hin as [<-|Hin]; [by rewrite Hthrow|].
    rewrite Forall_forall in Hj. specialize (Hj _ Hin).
    destruct (getAtIndex j); [done | by apply IH | by apply IH].
Qed.

(** So a tick in which the fetch of a published index beyond the cursor
    throws leaves that index to the next tick. *)
Lemma pollTick_throw_holds_cursor t total i (p : @Poller St) :
  totalPublisherDataForSchema t = TotalIs total →
  lastProcessedIndex p < i < total →
  getAtIndex t i = FetchThrows →
  lastProcessedIndex (pollTick handle t p) < i.
Proof.
  intros Htotal Hi Hthrow. unfold pollTick. rewrite Htotal.
  destruct (total =? 0); [lia|].
  apply pollLoop_throw_holds_cursor; [apply seqZ_sorted | | done | lia].
  apply elem_of_seqZ. lia.
Qed.

End PollerFacts.

(** With [N] records published and every fetch resolving to a record, the
    first tick dispatches exactly the indices [0 .. N-1], in order. *)
Lemma first_tick_dispatches_all (total : Z) :
  0 < total →
  dispatched (pollTick record (allFetched total) (start [])) = seqZ 0 total
  ∧ lastProcessedIndex (pollTick record (allFetched total) (start [])) = total - 1.
Proof.
  intros Hpos. unfold pollTick, allFetched. simpl.
  destruct (total =? 0) eqn:E; [apply Z.eqb_eq in E; lia|].
  change (-1 + 1) with 0. replace (total - 0) with total by lia.
  destruct (pollLoop_all_fetched record (λ _, FetchData (sample 12)) (seqZ 0 total) (start []))
    as [Hd Hl].
  { apply Forall_forall. intros i _. by eexists. }
  rewrite Hd, Hl. split; [done|]. simpl.
  replace total with (Z.of_nat (S (Z.to_nat (total - 1)))) at 1 by lia.
  rewrite seqZ_S, List.last_last. lia.
Qed.

(** C1 fails in the code where a fetch resolves to nothing instead of
    throwing: with two records published and the fetch of index 0 coming
    back empty, the tick dispatches index 1 and puts the cursor on 1; index 0
    is passed over, and no later tick ever dispatches it, whatever the
    handler and whatever the later fetches return. *)
Theorem empty_fetch_is_skipped
    {St : Type} (handle : RawData → St → St) (st : St) (later : list Tick) :
  dispatched (pollTick handle firstFetchEmpty (start st)) = [1]
  ∧ lastProcessedIndex (pollTick handle firstFetchEmpty (start st)) = 1
  ∧ 0 ∉ dispatched (pollTicks handle (firstFetchEmpty :: later) (start st)).
Proof.
  assert (Hd : dispatched (pollTick handle firstFetchEmpty (start st)) = [1])
    by (vm_compute; reflexivity).
  assert (Hc : lastProcessedIndex (pollTick handle firstFetchEmpty (start st)) = 1)
    by (vm_compute; reflexivity).
  split; [done|]. split; [done|].
  change (pollTicks handle (firstFetchEmpty :: later) (start st))
    with (pollTicks handle later (pollTick handle firstFetchEmpty (start st))).
  destruct (pollTick_extends handle firstFetchEmpty (start st) (start_inv st)) as [Hinv _].
  destruct (pollTicks_extends handle later _ Hinv) as [_ [_ (new & Hnew & Hbeyond)]].
  rewrite Hnew, Hd. rewrite Hc in Hbeyond.
  intros Hin. apply elem_of_app in Hin as [Hin|Hin].
  - apply list_elem_of_singleton in Hin. lia.
  - rewrite Forall_forall in Hbeyond. specialize (Hbeyond _ Hin). simpl in Hbeyond. lia.
Qed.

(** The empty fetch is not skipped on purpose: when it is the last index
    of the tick the cursor stays behind it and the next tick fetches it
    again. *)
Lemma empty_fetch_of_last_index_is_retried
    {St : Type} (handle : RawData → St → St) (st : St) :
  lastProcessedIndex
    (pollTick handle (mkTick (TotalIs 1) (λ _, FetchNothing)) (start st)) = -1
  ∧ dispatched
      (pollTicks handle [mkTick (TotalIs 1) (λ _, FetchNothing); allFetched 1] (start st))
    = [0].
Proof. vm_compute. split; reflexivity. Qed.

(** Two runs of the callback that overlap hand the same record to the
    handler twice. *)
Lemma overlapping_runs_dispatch_twice :
  delivered (resumes twoRunsOneRecord started) = [0; 0]
  ∧ cursor (resumes twoRunsOneRecord started) = 0.
Proof. vm_compute. split; reflexivity. Qed.

(** And the cursor moves back: the first run has put it on 1 when the
    second run's handler for index 0 returns and puts it on 0. *)
Lemma overlapping_runs_move_cursor_back :
  cursor (resumes secondRunLagsBehind started) = 1
  ∧ cursor (resume (HandlerReturns 1) (resumes secondRunLagsBehind started)) = 0.
Proof. vm_compute. split; reflexivity. Qed.

(** *** Runs that do not overlap are ticks *)

Section SoloRuns.

Context {St : Type}.
Variable handle : RawData → St → St.

Lemma resumes_cons ev evs p : resumes (ev :: evs) p = resumes evs (resume ev p).
Proof. done. Qed.

Lemma solo_loop_is_pollLoop getAtIndex k (n : nat) :
  ∀ i total (p : Process) (q : @Poller St),
    n = Z.to_nat (total - i) →
    callbacks p !! k = Some (loopHead i total) →
    cursor p = lastProcessedIndex q →
    delivered p = dispatched q →
    cursor (resumes (soloLoop getAtIndex k (seqZ i (total - i))) p)
      = lastProcessedIndex (pollLoop handle getAtIndex (seqZ i (total - i)) q)
    ∧ delivered (resumes (soloLoop getAtIndex k (seqZ i (total - i))) p)
      = dispatched (pollLoop handle getAtIndex (seqZ i (total - i)) q)
    ∧ callbacks (resumes (soloLoop getAtIndex k (seqZ i (total - i))) p) !! k
      = Some Returned.
Proof.
  induction n as [|n IH]; intros i total p q Hn Hk Hc Hd.
  - rewrite seqZ_nil by lia. simpl. repeat split; [done..|].
    rewrite Hk. unfold loopHead. destruct (i <? total) eqn:E; [|done].
    apply Z.ltb_lt in E. lia.
  - assert (Hlt : i < total) by lia.
    assert (Hhead : loopHead i total = AwaitFetch i total).
    { unfold loopHead. by apply Z.ltb_lt in Hlt as ->. }
    rewrite Hhead in Hk.
    assert (Hklen : (k < length (callbacks p))%nat) by (by eapply lookup_lt_Some).
    rewrite seqZ_cons by lia.
    replace (Z.succ i) with (i + 1) by lia.
    replace (Z.pred (total - i)) with (total - (i + 1)) by lia.
    cbn [soloLoop pollLoop]. destruct (getAtIndex i) as [| |data].
    + rewrite resumes_cons. unfold resumes. cbn [foldl resume]. rewrite Hk.
      cbn [cursor delivered callbacks]. repeat split; [done..|].
      by apply list_lookup_insert_eq.
    + rewrite resumes_cons.
      assert (Hp1 : resume (FetchResolves k FetchNothing) p
                    = mkProcess (cursor p) (delivered p)
                        (<[k := loopHead (i + 1) total]> (callbacks p))).
      { cbn [resume]. by rewrite Hk. }
      rewrite Hp1. apply IH; [lia| |done|done].
      cbn [callbacks]. by apply list_lookup_insert_eq.
    + rewrite !resumes_cons.
      assert (Hp1 : resume (FetchResolves k (FetchData data)) p
                    = mkProcess (cursor p) (delivered p ++ [i])
                        (<[k := AwaitHandle i total]> (callbacks p))).
      { cbn [resume]. by rewrite Hk. }
      rewrite Hp1.
      assert (Hp2 : resume (HandlerReturns k)
                      (mkProcess (cursor p) (delivered p ++ [i])
                         (<[k := AwaitHandle i total]> (callbacks p)))
                    = mkProcess i (delivered p ++ [i])
                        (<[k := loopHead (i + 1) total]> (callbacks p))).
      { cbn [resume callbacks cursor delivered].
        rewrite list_lookup_insert_eq by done. by rewrite list_insert_insert_eq. }
      rewrite Hp2. apply IH; [lia| |done|].
      * cbn [callbacks]. by apply list_lookup_insert_eq.
      * cbn [delivered dispatched]. by rewrite Hd.
Qed.

(** A run of the callback that starts with all earlier runs returned, and
    returns before the timer fires again, moves the cursor and dispatches as
    [pollTick] does. *)
Lemma solo_run_is_pollTick t (p : Process) (q : @Poller St) :
  cursor p = lastProcessedIndex q →
  delivered p = dispatched q →
  cursor (resumes (soloRun t (length (callbacks p)) (cursor p)) p)
    = lastProcessedIndex (pollTick handle t q)
  ∧ delivered (resumes (soloRun t (length (callbacks p)) (cursor p)) p)
    = dispatched (pollTick handle t q).
Proof.
  intros Hc Hd. unfold soloRun, pollTick. rewrite !resumes_cons.
  set (k := length (callbacks p)).
  assert (Hnew : callbacks (resume TimerFires p) !! k = Some AwaitTotal).
  { cbn [resume callbacks]. rewrite lookup_app_r by done.
    unfold k. by rewrite Nat.sub_diag. }
  assert (Hstep : ∀ r,
    resume (TotalResolves k r) (resume TimerFires p)
    = mkProcess (cursor p) (delivered p)
        (<[k := match r with
                | TotalThrows => Returned
                | TotalFalsy => Returned
                | TotalIs total =>
                    if total =? 0 then Returned else loopHead (cursor p + 1) total
                end]> (callbacks p ++ [AwaitTotal]))).
  { intros r. cbn [resume] in *. by rewrite Hnew. }
  rewrite Hstep.
  destruct (totalPublisherDataForSchema t) as [| |total]; [done..|].
  destruct (total =? 0); [done|].
  rewrite <- Hc.
  destruct (solo_loop_is_pollLoop (getAtIndex t) k (Z.to_nat (total - (cursor p + 1)))
              (cursor p + 1) total
              (mkProcess (cursor p) (delivered p)
                 (<[k := loopHead (cursor p + 1) total]> (callbacks p ++ [AwaitTotal])))
              q eq_refl) as (H1 & H2 & _); [|done|done|by split].
  cbn [callbacks]. apply list_lookup_insert_eq.
  rewrite length_app. simpl. unfold k. lia.
Qed.

End SoloRuns.

End ProviderFacts.

(* ===================================================================== *)
(** ** The provider's transactions on the ledger                          *)
(* ===================================================================== *)

Module EndToEnd.

Local Open Scope N_scope.

(** X19: The grant the provider submits (2400 MHz, 10 s, 0.001 ether) passes the
    three checks of [grantAccess], whoever sends it and for whichever
    device: on a ledger whose sums do not overflow it is accepted. *)
Lemma provider_grant_is_accepted (m : SpectrumMarket.Msg) (d : N) (s : SpectrumMarket.Storage) :
  SpectrumMarket.block_timestamp m + 10 ≤ SpectrumMarket.uint256_max →
  SpectrumMarket.totalCollected s + Z.to_N SpectrumProvider.GRANT_VALUE
    ≤ SpectrumMarket.uint256_max →
  SpectrumMarket.transact
    (SpectrumMarket.grantAccess m (Z.to_N SpectrumProvider.GRANT_VALUE) d 2400 10) s
  = (SpectrumMarket.Done tt,
     Ledger.granted m (Z.to_N SpectrumProvider.GRANT_VALUE) d 2400 10 s).
Proof.
  intros Ht Htc. apply MarketFacts.transact_done. rewrite MarketFacts.grantAccess_body.
  apply N.leb_le in Ht, Htc. rewrite Ht, Htc. reflexivity.
Qed.

End EndToEnd.

(* ===================================================================== *)
(** ** Facts about the contract's funds                                   *)
(* ===================================================================== *)

Module FundsFacts.

Import SpectrumMarket Ledger LedgerScenarios SpectrumFunds FundsScenarios MarketFacts.
Local Open Scope N_scope.

Lemma payGrantAccess_succeeded m v d f dur k k' out :
  payGrantAccess m v d f dur k = (Succeeded, k', out) →
  k' = mkContract (owner k) (granted m v d f dur (ledger k)) (balance k + v) (fundsEvents k)
  ∧ out = [].
Proof.
  unfold payGrantAccess.
  destruct (transact (grantAccess m v d f dur) (ledger k)) as [[[]|e] s'] eqn:E;
    intros H; simplify_eq.
  by apply transact_grantAccess_done in E as ->.
Qed.

Lemma payGrantAccess_failed m v d f dur k fl k' out :
  payGrantAccess m v d f dur k = (Failed fl, k', out) → k' = k ∧ out = [].
Proof.
  unfold payGrantAccess.
  destruct (transact (grantAccess m v d f dur) (ledger k)) as [[[]|e] s'];
    intros H; by simplify_eq.
Qed.

Lemma callRevokeAccess_succeeded m d k k' out :
  callRevokeAccess m d k = (Succeeded, k', out) →
  k' = mkContract (owner k) (revoked m d (ledger k)) (balance k) (fundsEvents k)
  ∧ out = [].
Proof.
  unfold callRevokeAccess.
  destruct (transact (revokeAccess m d) (ledger k)) as [[[]|e] s'] eqn:E;
    intros H; simplify_eq.
  by apply transact_revokeAccess_done in E as ->.
Qed.

Lemma callRevokeAccess_failed m d k fl k' out :
  callRevokeAccess m d k = (Failed fl, k', out) → k' = k ∧ out = [].
Proof.
  unfold callRevokeAccess.
  destruct (transact (revokeAccess m d) (ledger k)) as [[[]|e] s'];
    intros H; by simplify_eq.
Qed.

(** What a single call does to the owner, the ether and the running total. *)
Lemma call_accounts c k r k' out :
  call c k = (r, k', out) →
  owner k' = owner k
  ∧ Forall (λ t, recipient t = owner k) out
  ∧ balance k' + total out + totalCollected (ledger k)
    = balance k + totalCollected (ledger k')
  ∧ totalCollected (ledger k) ≤ totalCollected (ledger k').
Proof.
  destruct c as [m v d f dur | m d | m success | m sent]; simpl; intros H.
  - destruct r as [|fl].
    + apply payGrantAccess_succeeded in H as [-> ->]. simpl.
      repeat split; [constructor | lia | lia].
    + apply payGrantAccess_failed in H as [-> ->]. simpl.
      repeat split; [constructor | lia | lia].
  - destruct r as [|fl].
    + apply callRevokeAccess_succeeded in H as [-> ->]. simpl.
      repeat split; [constructor | lia | lia].
    + apply callRevokeAccess_failed in H as [-> ->]. simpl.
      repeat split; [constructor | lia | lia].
  - unfold withdraw in H. repeat case_match; simplify_eq; simpl;
      repeat split; try constructor; try done; try constructor; lia.
  - unfold emergencyWithdraw in H. repeat case_match; simplify_eq; simpl;
      repeat split; try constructor; try done; try constructor; lia.
Qed.

Lemma total_app out1 out2 : total (out1 ++ out2) = total out1 + total out2.
Proof. induction out1 as [|t out1 IH]; simpl; [done|]. rewrite IH. lia. Qed.

Lemma calls_cons c rest k :
  calls (c :: rest) k
  = ((calls rest (call c k).1.2).1, (call c k).2 ++ (calls rest (call c k).1.2).2).
Proof.
  simpl. destruct (call c k) as [[r k'] out]. simpl.
  by destruct (calls rest k') as [final outs].
Qed.

(** X1: Every wei is accounted for: over any sequence of calls the owner stays
    the same, ether leaves the contract towards the owner only, and what the
    contract holds plus what it has sent out has grown by exactly what
    [totalCollected] has grown by, which never shrinks. *)
Theorem funds_are_accounted (cs : list Call) (k : Contract) :
  owner (calls cs k).1 = owner k
  ∧ Forall (λ t, recipient t = owner k) (calls cs k).2
  ∧ balance (calls cs k).1 + total (calls cs k).2 + totalCollected (ledger k)
    = balance k + totalCollected (ledger (calls cs k).1)
  ∧ totalCollected (ledger k) ≤ totalCollected (ledger (calls cs k).1).
Proof.
  revert k. induction cs as [|c rest IH]; intros k.
  - simpl. repeat split; [constructor | lia | lia].
  - rewrite calls_cons. simpl.
    destruct (call c k) as [[r k'] out] eqn:E. simpl.
    destruct (call_accounts _ _ _ _ _ E) as (Ho & Hr & Hb & Hm).
    destruct (IH k') as (Ho' & Hr' & Hb' & Hm').
    split; [congruence|]. split; [|split].
    + apply Forall_app. split; [done|].
      eapply Forall_impl; [exact Hr'|]. simpl. intros t Ht. congruence.
    + rewrite total_app. lia.
    + lia.
Qed.

(** A call by anyone but the owner sends nothing out and logs no
    withdrawal. *)
Lemma stranger_call c k :
  caller c ≠ owner k →
  (call c k).2 = []
  ∧ owner (call c k).1.2 = owner k
  ∧ fundsEvents (call c k).1.2 = fundsEvents k
  ∧ balance k ≤ balance (call c k).1.2.
Proof.
  intros Hc. destruct c as [m v d f dur | m d | m success | m sent]; simpl in *.
  - destruct (payGrantAccess m v d f dur k) as [[[|fl] k'] out] eqn:E; simpl.
    + apply payGrantAccess_succeeded in E as [-> ->]. simpl. repeat split; lia.
    + apply payGrantAccess_failed in E as [-> ->]. repeat split; lia.
  - destruct (callRevokeAccess m d k) as [[[|fl] k'] out] eqn:E; simpl.
    + apply callRevokeAccess_succeeded in E as [-> ->]. simpl. repeat split; lia.
    + apply callRevokeAccess_failed in E as [-> ->]. repeat split; lia.
  - unfold withdraw. apply N.eqb_neq in Hc. rewrite Hc. simpl. repeat split; lia.
  - unfold emergencyWithdraw. apply N.eqb_neq in Hc. rewrite Hc. simpl. repeat split; lia.
Qed.

(** X2: Only the owner takes funds out: a sequence of calls none of which the
    owner sends moves no ether out of the contract, logs no withdrawal and
    never lowers the balance, whatever the calls are and whatever the
    transfers would have done. *)
Theorem only_owner_moves_funds (cs : list Call) (k : Contract) :
  Forall (λ c, caller c ≠ owner k) cs →
  (calls cs k).2 = []
  ∧ fundsEvents (calls cs k).1 = fundsEvents k
  ∧ balance k ≤ balance (calls cs k).1.
Proof.
  revert k. induction cs as [|c rest IH]; intros k Hcs.
  - simpl. repeat split; lia.
  - apply Forall_cons in Hcs as [Hc Hrest]. rewrite calls_cons. simpl.
    destruct (stranger_call c k Hc) as (Hout & Ho & He & Hb).
    destruct (IH (call c k).1.2) as (Hout' & He' & Hb').
    { eapply Forall_impl; [exact Hrest|]. simpl. intros c' Hc'. by rewrite Ho. }
    rewrite Hout, Hout', He', He. repeat split. lia.
Qed.

Lemma only_owner_moves_funds_witness :
  Forall (λ c, caller c ≠ owner (constructor (mkMsg alice 50))) bobsCalls
  ∧ (calls bobsCalls (constructor (mkMsg alice 50))).2 = []
  ∧ balance (calls bobsCalls (constructor (mkMsg alice 50))).1 = 2 * MIN_PRICE.
Proof.
  assert (H : Forall (λ c, caller c ≠ owner (constructor (mkMsg alice 50))) bobsCalls).
  { repeat constructor; by vm_compute. }
  split; [exact H|]. split.
  - apply (only_owner_moves_funds bobsCalls (constructor (mkMsg alice 50)) H).
  - vm_compute. reflexivity.
Defined.

(** X3: Without [emergencyWithdraw] the log tells the whole story: the
    [FundsWithdrawn] events added by a sequence of calls carry, one for one
    and in order, the amounts that left the contract. *)
Theorem withdrawals_are_logged (cs : list Call) (k : Contract) :
  Forall (λ c, isEmergency c = false) cs →
  ∃ new, fundsEvents (calls cs k).1 = fundsEvents k ++ new
         ∧ withdrawnAmount <$> new = amount <$> (calls cs k).2.
Proof.
  revert k. induction cs as [|c rest IH]; intros k Hcs.
  - exists []. simpl. by rewrite app_nil_r.
  - apply Forall_cons in Hcs as [Hc Hrest]. rewrite calls_cons. simpl.
    destruct (IH (call c k).1.2 Hrest) as (new' & He' & Ha').
    assert (Hstep : ∃ new, fundsEvents (call c k).1.2 = fundsEvents k ++ new
                           ∧ withdrawnAmount <$> new = amount <$> (call c k).2).
    { destruct c as [m v d f dur | m d | m success | m sent]; simpl in *.
      - exists []. rewrite app_nil_r.
        destruct (payGrantAccess m v d f dur k) as [[[|fl] k'] out] eqn:E; simpl.
        + by apply payGrantAccess_succeeded in E as [-> ->].
        + by apply payGrantAccess_failed in E as [-> ->].
      - exists []. rewrite app_nil_r.
        destruct (callRevokeAccess m d k) as [[[|fl] k'] out] eqn:E; simpl.
        + by apply callRevokeAccess_succeeded in E as [-> ->].
        + by apply callRevokeAccess_failed in E as [-> ->].
      - unfold withdraw. repeat case_match; simpl;
          try (exists []; by rewrite app_nil_r).
        by eexists [_].
      - discriminate. }
    destruct Hstep as (new & He & Ha).
    exists (new ++ new'). split.
    + by rewrite He', He, app_assoc.
    + by rewrite !fmap_app, Ha, Ha'.
Qed.

Lemma withdrawals_are_logged_witness :
  Forall (λ c, isEmergency c = false) withdrawals
  ∧ amount <$> (calls withdrawals (constructor (mkMsg alice 50))).2
    = [2 * MIN_PRICE; MIN_PRICE]
  ∧ ∃ new, fundsEvents (calls withdrawals (constructor (mkMsg alice 50))).1 = [] ++ new
           ∧ withdrawnAmount <$> new
             = amount <$> (calls withdrawals (constructor (mkMsg alice 50))).2.
Proof.
  assert (H : Forall (λ c, isEmergency c = false) withdrawals) by (by repeat constructor).
  split; [exact H|]. split; [vm_compute; reflexivity|].
  apply (withdrawals_are_logged withdrawals (constructor (mkMsg alice 50)) H).
Defined.

(** An emergency withdrawal that goes through is the one payment the log
    does not show. *)
Lemma emergencyWithdraw_is_not_logged m k :
  msg_sender m = owner k →
  emergencyWithdraw m true k
  = (Succeeded, mkContract (owner k) (ledger k) 0 (fundsEvents k),
     [mkTransfer (owner k) (balance k)]).
Proof.
  intros Ho. unfold emergencyWithdraw. apply N.eqb_eq in Ho. by rewrite Ho.
Qed.

Lemma withdraw_by_owner m k :
  msg_sender m = owner k →
  withdraw m true k
  = if balance k =? 0 then (Succeeded, k, [])
    else (Succeeded,
          mkContract (owner k) (ledger k) 0
            (fundsEvents k ++ [FundsWithdrawn (owner k) (balance k) (block_timestamp m)]),
          [mkTransfer (owner k) (balance k)]).
Proof.
  intros Ho. unfold withdraw. apply N.eqb_eq in Ho. rewrite Ho. simpl.
  by destruct (balance k =? 0).
Qed.

(** X4: The owner's [withdraw] empties the contract once: it sends the whole
    balance to the owner and leaves the ledger alone, and a [withdraw] that
    comes next finds nothing, makes no call to the owner (so it succeeds
    even where that call would fail), and logs nothing. *)
Theorem withdraw_empties_once (m m' : Msg) (success' : bool) (k : Contract) :
  msg_sender m = owner k →
  msg_sender m' = owner k →
  (withdraw m true k).1.1 = Succeeded
  ∧ balance (withdraw m true k).1.2 = 0
  ∧ ledger (withdraw m true k).1.2 = ledger k
  ∧ total (withdraw m true k).2 = balance k
  ∧ withdraw m' success' (withdraw m true k).1.2
    = (Succeeded, (withdraw m true k).1.2, []).
Proof.
  intros Ho Ho'. rewrite (withdraw_by_owner m k Ho).
  apply N.eqb_eq in Ho'.
  destruct (balance k =? 0) eqn:Eb; simpl.
  - repeat split; [by apply N.eqb_eq | by apply N.eqb_eq in Eb |].
    unfold withdraw. by rewrite Ho', Eb.
  - repeat split; [lia|].
    unfold withdraw. simpl. by rewrite Ho'.
Qed.

Lemma withdraw_empties_once_witness :
  msg_sender (mkMsg alice 110) = owner afterBobPaid
  ∧ total (withdraw (mkMsg alice 110) true afterBobPaid).2 = 2 * MIN_PRICE
  ∧ withdraw (mkMsg alice 120) false (withdraw (mkMsg alice 110) true afterBobPaid).1.2
    = (Succeeded, (withdraw (mkMsg alice 110) true afterBobPaid).1.2, []).
Proof.
  destruct (withdraw_empties_once (mkMsg alice 110) (mkMsg alice 120) false afterBobPaid
              eq_refl eq_refl) as (_ & _ & _ & Ht & Hagain).
  split; [reflexivity|]. split; [exact Ht | exact Hagain].
Defined.

(** X5: Revoking gives nothing back: when a provider's paid grant is revoked by
    that provider while it is active, the record is deleted, no ether leaves
    the contract, and both the balance and [totalCollected] keep the
    payment. *)
Theorem revoke_keeps_the_payment
    (m m' : Msg) (v d f dur : N) (k k1 : Contract) (out : list Transfer) :
  payGrantAccess m v d f dur k = (Succeeded, k1, out) →
  msg_sender m' = msg_sender m →
  block_timestamp m' < expiresAt (getGrant d (ledger k1)) →
  ∃ k2, callRevokeAccess m' d k1 = (Succeeded, k2, [])
        ∧ getGrant d (ledger k2) = zeroGrant
        ∧ balance k2 = balance k + v
        ∧ totalCollected (ledger k2) = totalCollected (ledger k) + v.
Proof.
  intros Hpaid Hsame Hactive.
  apply payGrantAccess_succeeded in Hpaid as [-> ->]. simpl in *.
  assert (Hrun : transact (revokeAccess m' d) (granted m v d f dur (ledger k))
                 = (Done tt, revoked m' d (granted m v d f dur (ledger k)))).
  { apply revokeAccess_active; [|done]. rewrite getGrant_granted. simpl. congruence. }
  eexists. unfold callRevokeAccess. simpl. rewrite Hrun.
  split; [done|]. simpl. split; [apply getGrant_revoked | done].
Qed.

Lemma revoke_keeps_the_payment_witness :
  payGrantAccess (mkMsg bob 100) (2 * MIN_PRICE) deviceAA 2400 60
    (constructor (mkMsg alice 50))
  = (Succeeded, afterBobPaid, [])
  ∧ ∃ k2, callRevokeAccess (mkMsg bob 130) deviceAA afterBobPaid = (Succeeded, k2, [])
          ∧ balance k2 = 0 + 2 * MIN_PRICE.
Proof.
  assert (H : payGrantAccess (mkMsg bob 100) (2 * MIN_PRICE) deviceAA 2400 60
                (constructor (mkMsg alice 50))
              = (Succeeded, afterBobPaid, [])).
  { unfold payGrantAccess, transact. rewrite grantAccess_body. vm_compute. reflexivity. }
  split; [exact H|].
  destruct (revoke_keeps_the_payment (mkMsg bob 100) (mkMsg bob 130) (2 * MIN_PRICE)
              deviceAA 2400 60 (constructor (mkMsg alice 50)) afterBobPaid [] H eq_refl)
    as (k2 & Hrun & _ & Hb & _).
  { unfold afterBobPaid. simpl. rewrite getGrant_granted. vm_compute. reflexivity. }
  exists k2. split; [exact Hrun | exact Hb].
Defined.

Lemma call_other_target c d k :
  target c ≠ Some d → getGrant d (ledger (call c k).1.2) = getGrant d (ledger k).
Proof.
  intros Ht. destruct c as [m v d0 f dur | m d0 | m success | m sent]; simpl in *.
  - assert (d0 ≠ d) by congruence.
    destruct (payGrantAccess m v d0 f dur k) as [[[|fl] k'] out] eqn:E; simpl.
    + apply payGrantAccess_succeeded in E as [-> ->]. simpl. by apply getGrant_granted_ne.
    + by apply payGrantAccess_failed in E as [-> ->].
  - assert (d0 ≠ d) by congruence.
    destruct (callRevokeAccess m d0 k) as [[[|fl] k'] out] eqn:E; simpl.
    + apply callRevokeAccess_succeeded in E as [-> ->]. simpl. by apply getGrant_revoked_ne.
    + by apply callRevokeAccess_failed in E as [-> ->].
  - unfold withdraw. by repeat case_match.
  - unfold emergencyWithdraw. by repeat case_match.
Qed.

(** X6: A device's grant is touched only by calls about that device: grants and
    revocations of other devices, and the owner's withdrawals, leave what
    [getGrant] and [canTransmit] answer for it as it was. *)
Theorem other_calls_leave_the_grant (cs : list Call) (d : N) (m : Msg) (k : Contract) :
  Forall (λ c, target c ≠ Some d) cs →
  getGrant d (ledger (calls cs k).1) = getGrant d (ledger k)
  ∧ canTransmit m d (ledger (calls cs k).1) = canTransmit m d (ledger k).
Proof.
  intros Hcs.
  assert (H : getGrant d (ledger (calls cs k).1) = getGrant d (ledger k)).
  { revert k. induction Hcs as [|c rest Hc _ IH]; intros k; [done|].
    rewrite calls_cons. simpl. rewrite IH. by apply call_other_target. }
  split; [done|]. unfold canTransmit. cbn zeta. unfold getGrant in H. by rewrite H.
Qed.

Lemma other_calls_leave_the_grant_witness :
  Forall (λ c, target c ≠ Some deviceAA) otherCalls
  ∧ getGrant deviceAA (ledger (calls otherCalls afterBobPaid).1)
    = mkGrant bob (2 * MIN_PRICE) 2400 160.
Proof.
  assert (H : Forall (λ c, target c ≠ Some deviceAA) otherCalls).
  { repeat constructor; by vm_compute. }
  split; [exact H|].
  destruct (other_calls_leave_the_grant otherCalls deviceAA (mkMsg bob 0) afterBobPaid H)
    as [Hg _].
  rewrite Hg. unfold afterBobPaid. simpl. rewrite getGrant_granted. vm_compute. reflexivity.
Defined.

End FundsFacts.

(* ===================================================================== *)
(** ** A grant from payment to expiry                                     *)
(* ===================================================================== *)

Module GrantLifecycle.

Import SpectrumMarket Ledger LedgerScenarios MarketFacts.
Local Open Scope N_scope.

(** X7: An accepted grant lets the device transmit exactly until the stored
    expiry, [uint32(block.timestamp + duration)], which is also what
    [getGrantExpiration] returns: while [now + duration] fits 32 bits the
    device may transmit from the granting second up to, not including,
    second [now + duration]. *)
Theorem grant_opens_a_window (m m' : Msg) (v d f dur : N) (s s' : Storage) :
  transact (grantAccess m v d f dur) s = (Done tt, s') →
  getGrantExpiration d s' = uint32 (block_timestamp m + dur)
  ∧ (canTransmit m' d s' = true ↔ block_timestamp m' < uint32 (block_timestamp m + dur))
  ∧ (block_timestamp m + dur < 2 ^ 32 →
     canTransmit m d s' = true
     ∧ (canTransmit m' d s' = true ↔ block_timestamp m' < block_timestamp m + dur)).
Proof.
  intros Hrun.
  assert (Hdur : 0 < dur).
  { unfold transact in Hrun. rewrite grantAccess_body in Hrun.
    destruct (dur =? 0) eqn:E; [|apply N.eqb_neq in E; lia].
    simpl in Hrun. repeat case_match; simplify_eq. }
  apply transact_grantAccess_done in Hrun as ->.
  assert (He : expiresAt (getGrant d (granted m v d f dur s))
               = uint32 (block_timestamp m + dur)) by (by rewrite getGrant_granted).
  split; [exact He|]. split.
  - by rewrite canTransmit_true, He.
  - intros Hfit. rewrite !canTransmit_true, He. unfold uint32.
    rewrite N.mod_small by done. split; [lia | done].
Qed.

Lemma grant_opens_a_window_witness :
  transact (grantAccess aliceNow MIN_PRICE deviceAA 2400 10) initial = (Done tt, aliceHolds)
  ∧ getGrantExpiration deviceAA aliceHolds = 210
  ∧ canTransmit (mkMsg bob 209) deviceAA aliceHolds = true
  ∧ canTransmit (mkMsg bob 210) deviceAA aliceHolds = false.
Proof.
  assert (H : transact (grantAccess aliceNow MIN_PRICE deviceAA 2400 10) initial
              = (Done tt, aliceHolds)).
  { apply transact_done. rewrite grantAccess_body. vm_compute. reflexivity. }
  split; [exact H|].
  destruct (grant_opens_a_window aliceNow (mkMsg bob 209) MIN_PRICE deviceAA 2400 10
              initial aliceHolds H) as (He & _ & Hwin).
  destruct (grant_opens_a_window aliceNow (mkMsg bob 210) MIN_PRICE deviceAA 2400 10
              initial aliceHolds H) as (_ & _ & Hwin').
  split; [rewrite He; vm_compute; reflexivity|]. split.
  - apply Hwin; vm_compute; reflexivity.
  - apply not_true_is_false. intros Hc.
    apply Hwin' in Hc; [|vm_compute; reflexivity]. revert Hc. vm_compute. discriminate.
Defined.

(** X8: Last payer wins, and the first payer is locked out: when a second
    provider's grant for the same device is accepted, the record names the
    second provider, the first provider's [revokeAccess] reverts with
    [NotProvider] from then on, and both payments stay collected. *)
Theorem overwrite_locks_out_the_first_provider
    (mA mB mA' : Msg) (vA vB d fA fB durA durB : N) (s s1 s2 : Storage) :
  transact (grantAccess mA vA d fA durA) s = (Done tt, s1) →
  transact (grantAccess mB vB d fB durB) s1 = (Done tt, s2) →
  msg_sender mB ≠ msg_sender mA →
  msg_sender mA' = msg_sender mA →
  getGrant d s2
    = mkGrant (msg_sender mB) (uint96 vB) fB (uint32 (block_timestamp mB + durB))
  ∧ transact (revokeAccess mA' d) s2 = (Revert NotProvider, s2)
  ∧ totalCollected s2 = totalCollected s + vA + vB.
Proof.
  intros HA HB Hne Hsame.
  apply transact_grantAccess_done in HA as ->.
  apply transact_grantAccess_done in HB as ->.
  rewrite getGrant_granted. split; [done|]. split; [|done].
  apply revokeAccess_not_provider. rewrite getGrant_granted. simpl. congruence.
Qed.

Lemma overwrite_locks_out_the_first_provider_witness :
  transact (grantAccess (mkMsg bob 100) (2 * MIN_PRICE) deviceAA 900 60) initial
  = (Done tt, executeAll [bobGrants] initial)
  ∧ provider (getGrant deviceAA
                (granted aliceNow MIN_PRICE deviceAA 2400 10 (executeAll [bobGrants] initial)))
    = alice
  ∧ transact (revokeAccess (mkMsg bob 205) deviceAA)
      (granted aliceNow MIN_PRICE deviceAA 2400 10 (executeAll [bobGrants] initial))
    = (Revert NotProvider,
       granted aliceNow MIN_PRICE deviceAA 2400 10 (executeAll [bobGrants] initial)).
Proof.
  assert (H1 : transact (grantAccess (mkMsg bob 100) (2 * MIN_PRICE) deviceAA 900 60) initial
               = (Done tt, executeAll [bobGrants] initial)).
  { unfold transact. rewrite grantAccess_body. vm_compute. reflexivity. }
  assert (H2 : transact (grantAccess aliceNow MIN_PRICE deviceAA 2400 10)
                 (executeAll [bobGrants] initial)
               = (Done tt, granted aliceNow MIN_PRICE deviceAA 2400 10
                             (executeAll [bobGrants] initial))).
  { apply transact_done. rewrite grantAccess_body. vm_compute. reflexivity. }
  split; [exact H1|].
  destruct (overwrite_locks_out_the_first_provider (mkMsg bob 100) aliceNow (mkMsg bob 205)
              (2 * MIN_PRICE) MIN_PRICE deviceAA 900 2400 60 10 initial _ _ H1 H2)
    as (Hg & Hrev & _); [by vm_compute | reflexivity |].
  split; [by rewrite Hg | exact Hrev].
Defined.

End GrantLifecycle.

(* ===================================================================== *)
(** ** The decision engine over streams of samples                        *)
(* ===================================================================== *)

Module DecisionStreams.

Import SpectrumProvider ProviderScenarios Streams ProviderFacts.
Local Open Scope Z_scope.

Section Streams.

Variable MIN_SNR : Z.

Lemma handleAll_cons env rawData rest (ds : gmap string DeviceState) :
  handleAll MIN_SNR ((env, rawData) :: rest) ds
  = ((handleSignalData MIN_SNR env rawData ds).1
       :: (handleAll MIN_SNR rest (handleSignalData MIN_SNR env rawData ds).2).1,
     (handleAll MIN_SNR rest (handleSignalData MIN_SNR env rawData ds).2).2).
Proof.
  simpl. destruct (handleSignalData MIN_SNR env rawData ds) as [a ds']. simpl.
  by destruct (handleAll MIN_SNR rest ds').
Qed.

(** One sample changes the entry of its own device at most. *)
Lemma handleSignalData_frame env rawData (ds : gmap string DeviceState) d' :
  dataDevice rawData ≠ Some d' →
  (handleSignalData MIN_SNR env rawData ds).2 !! d' = ds !! d'.
Proof.
  intros Hd. destruct rawData as [| |d snr bid]; [done..|].
  assert (d ≠ d') by (simpl in Hd; congruence).
  unfold handleSignalData, decideAction.
  repeat case_match; simplify_eq; simpl; try done;
    unfold runTask; repeat case_match; simplify_eq;
    by rewrite ?lookup_insert_ne.
Qed.

(** And it acts on its own device or not at all. *)
Lemma handleSignalData_action_device env rawData (ds : gmap string DeviceState) :
  actionDevice (handleSignalData MIN_SNR env rawData ds).1 = None
  ∨ actionDevice (handleSignalData MIN_SNR env rawData ds).1 = dataDevice rawData.
Proof.
  destruct rawData as [| |d snr bid]; [by left..|].
  unfold handleSignalData, decideAction.
  repeat case_match; simplify_eq; simpl; auto.
Qed.

Lemma actionsOn_cons d a acts :
  actionsOn d (a :: acts)
  = if decide (actionDevice a = Some d) then a :: actionsOn d acts else actionsOn d acts.
Proof. unfold actionsOn. by rewrite filter_cons. Qed.

(** X9: Samples of other devices, and records that do not decode, never act on
    a device nor change what the provider believes about it: over any
    stream without a decodable sample of the device, its entry in the map
    is untouched and no action is about it. *)
Theorem other_samples_leave_the_device
    (samples : list (Env * RawData)) (d : string) (ds : gmap string DeviceState) :
  Forall (λ s, dataDevice s.2 ≠ Some d) samples →
  (handleAll MIN_SNR samples ds).2 !! d = ds !! d
  ∧ actionsOn d (handleAll MIN_SNR samples ds).1 = [].
Proof.
  intros Hs. revert ds. induction Hs as [|[env rawData] rest Hd _ IH]; intros ds; [done|].
  rewrite handleAll_cons. simpl in *.
  destruct (IH (handleSignalData MIN_SNR env rawData ds).2) as [Hmap Hacts].
  split.
  - by rewrite Hmap, handleSignalData_frame.
  - rewrite actionsOn_cons, Hacts.
    destruct (handleSignalData_action_device env rawData ds) as [Ha|Ha];
      rewrite Ha; by case_decide.
Qed.

Lemma snrOf_None d rawData : snrOf d rawData = None → dataDevice rawData ≠ Some d.
Proof.
  destruct rawData as [| |d' snr bid]; simpl; [done..|].
  case_decide; [done|]. intros _. congruence.
Qed.

Lemma snrOf_Some d rawData snr :
  snrOf d rawData = Some snr → ∃ bid, rawData = Fields d snr bid.
Proof.
  destruct rawData as [| |d' snr' bid]; simpl; [done..|].
  case_decide; [|done]. intros [= ->]. subst. by eexists.
Qed.

(** X10: A grant the provider believes active is not asked for again: while the
    clock has not passed the local expiry, good samples of the device (and
    any samples of other devices) lead to no action about it and leave its
    entry alone; the first good sample after the local expiry is granted
    anew. *)
Theorem held_grant_is_not_repeated
    (samples : list (Env * RawData)) (d : string) (ds : gmap string DeviceState)
    (later : Env) (snr' bid' : Z) :
  hasGrant (currentStateOf d ds) = true →
  Forall (λ s, now s.1 ≤ grantExpires (currentStateOf d ds)
               ∧ ∀ snr, snrOf d s.2 = Some snr → MIN_SNR ≤ snr) samples →
  grantExpires (currentStateOf d ds) < now later →
  MIN_SNR ≤ snr' →
  actionsOn d (handleAll MIN_SNR samples ds).1 = []
  ∧ (handleAll MIN_SNR samples ds).2 !! d = ds !! d
  ∧ (handleSignalData MIN_SNR later (Fields d snr' bid') (handleAll MIN_SNR samples ds).2).1
    = Grant (GrantAccessTx d 2400 10 GRANT_VALUE 200000).
Proof.
  intros Hhas Hs Hlater Hsnr'.
  assert (Hkeep : actionsOn d (handleAll MIN_SNR samples ds).1 = []
                  ∧ (handleAll MIN_SNR samples ds).2 !! d = ds !! d).
  { clear Hlater. revert ds Hhas Hs.
    induction samples as [|[env rawData] rest IH]; intros ds Hhas Hs; [done|].
    apply Forall_cons in Hs as [[Hnow Hgood] Hrest]. simpl in Hnow, Hgood.
    rewrite handleAll_cons. simpl.
    assert (Hstep : (handleSignalData MIN_SNR env rawData ds).2 !! d = ds !! d
                    ∧ actionDevice (handleSignalData MIN_SNR env rawData ds).1 ≠ Some d).
    { destruct (snrOf d rawData) as [snr|] eqn:E.
      - apply snrOf_Some in E as Hraw. destruct Hraw as [bid ->].
        by rewrite (handle_hold MIN_SNR env d snr bid ds (Hgood _ eq_refl) Hhas Hnow).
      - apply snrOf_None in E. split; [by apply handleSignalData_frame|].
        destruct (handleSignalData_action_device env rawData ds) as [Ha|Ha];
          rewrite Ha; [done | exact E]. }
    destruct Hstep as [Hmap Hact].
    assert (Hsame : currentStateOf d (handleSignalData MIN_SNR env rawData ds).2
                    = currentStateOf d ds) by (unfold currentStateOf; by rewrite Hmap).
    destruct (IH (handleSignalData MIN_SNR env rawData ds).2) as [Hacts Hfinal].
    { by rewrite Hsame. }
    { by rewrite Hsame. }
    split.
    - rewrite actionsOn_cons, Hacts. by case_decide.
    - by rewrite Hfinal. }
  destruct Hkeep as [Hacts Hmap]. split; [done|]. split; [done|].
  rewrite handle_grant; [done | done |]. right.
  unfold currentStateOf in *. by rewrite Hmap.
Qed.

(** X11: The bid is never read: replacing the bids of a stream by any others
    gives the same actions and the same map, and every grant submitted
    attaches the fixed 0.001 ether (for 2400 MHz and 10 seconds). *)
Theorem bids_are_ignored
    (f : Z → Z) (samples : list (Env * RawData)) (ds : gmap string DeviceState) :
  handleAll MIN_SNR ((λ s, (s.1, rebid f s.2)) <$> samples) ds
    = handleAll MIN_SNR samples ds
  ∧ Forall (λ a, ∀ tx, a = Grant tx →
                 ∃ d, tx = GrantAccessTx d 2400 10 GRANT_VALUE 200000)
      (handleAll MIN_SNR samples ds).1.
Proof.
  split.
  - revert ds. induction samples as [|[env rawData] rest IH]; intros ds; [done|].
    rewrite fmap_cons. cbn [fst snd]. rewrite !handleAll_cons.
    assert (Hstep : handleSignalData MIN_SNR env (rebid f rawData) ds
                    = handleSignalData MIN_SNR env rawData ds)
      by (by destruct rawData).
    by rewrite Hstep, IH.
  - revert ds. induction samples as [|[env rawData] rest IH]; intros ds; [constructor|].
    rewrite handleAll_cons. simpl. constructor; [|apply IH].
    intros tx Htx. destruct rawData as [| |d snr bid]; [done..|].
    unfold handleSignalData, decideAction in Htx.
    repeat case_match; simpl in Htx; simplify_eq; by eexists.
Qed.

Lemma revokesFollowGrants_held held acts :
  revokesFollowGrants held acts = true → revokesFollowGrants true acts = true.
Proof.
  revert held. induction acts as [|[tx|tx|] rest IH]; intros held; simpl; try done.
  - by intros [_ ?]%andb_true_iff.
  - apply IH.
Qed.

(** What a sample of the device does to the belief about it. *)
Lemma handleSignalData_on_device env d snr bid (ds : gmap string DeviceState) :
  handleSignalData MIN_SNR env (Fields d snr bid) ds = (NoAction, ds)
  ∨ (handleSignalData MIN_SNR env (Fields d snr bid) ds).1
    = Grant (GrantAccessTx d 2400 10 GRANT_VALUE 200000)
  ∨ ((handleSignalData MIN_SNR env (Fields d snr bid) ds).1
       = Revoke (RevokeAccessTx d 100000)
     ∧ hasGrant (currentStateOf d ds) = true
     ∧ hasGrant (currentStateOf d (handleSignalData MIN_SNR env (Fields d snr bid) ds).2)
       = false).
Proof.
  unfold handleSignalData, decideAction.
  destruct (MIN_SNR <=? snr) eqn:Es; simpl.
  - destruct (negb (hasGrant (currentStateOf d ds))
              || (grantExpires (currentStateOf d ds) <? now env)); simpl; auto.
  - destruct (hasGrant (currentStateOf d ds)) eqn:Eh; simpl; [|by left].
    destruct (grantExpires (currentStateOf d ds) <? now env); simpl; [by left|].
    right. right. split; [done|]. split; [done|].
    destruct (writeContract env); simpl; by rewrite currentStateOf_insert.
Qed.

(** X12: Revokes answer grants: among the actions about one device, none is a
    revoke unless the provider believed a grant held when the stream began
    or a grant came before it, and no revoke follows another without a
    grant in between. *)
Theorem revokes_follow_grants
    (samples : list (Env * RawData)) (d : string) (ds : gmap string DeviceState) :
  revokesFollowGrants (hasGrant (currentStateOf d ds))
    (actionsOn d (handleAll MIN_SNR samples ds).1) = true.
Proof.
  revert ds. induction samples as [|[env rawData] rest IH]; intros ds; [done|].
  rewrite handleAll_cons. cbn [fst]. rewrite actionsOn_cons.
  specialize (IH (handleSignalData MIN_SNR env rawData ds).2).
  destruct (snrOf d rawData) as [snr|] eqn:E.
  - apply snrOf_Some in E as [bid ->].
    destruct (handleSignalData_on_device env d snr bid ds) as [Hn|[Hg|(Hr & Hheld & Hafter)]].
    + rewrite Hn in IH |- *. cbn [fst snd actionDevice] in *.
      by rewrite decide_False.
    + rewrite Hg. cbn [actionDevice]. rewrite decide_True by done.
      cbn [revokesFollowGrants]. by eapply revokesFollowGrants_held.
    + rewrite Hr. cbn [actionDevice]. rewrite decide_True by done.
      cbn [revokesFollowGrants]. rewrite Hheld. by rewrite Hafter in IH.
  - apply snrOf_None in E.
    assert (Hsame : currentStateOf d (handleSignalData MIN_SNR env rawData ds).2
                    = currentStateOf d ds).
    { unfold currentStateOf. by rewrite handleSignalData_frame. }
    rewrite Hsame in IH.
    destruct (handleSignalData_action_device env rawData ds) as [Ha|Ha];
      rewrite decide_False; try done; rewrite Ha; [done | exact E].
Qed.

End Streams.

Lemma held_grant_is_not_repeated_witness :
  hasGrant (currentStateOf device {[device := holding]}) = true
  ∧ actionsOn device
      (handleAll 10 [(mkEnv 55000 TxHash, sample 14); (mkEnv 56000 TxThrows, otherSample);
                     (mkEnv 60000 TxHash, sample 10)] {[device := holding]}).1
    = []
  ∧ (handleSignalData 10 (mkEnv 60001 TxHash) (Fields device 11 0)
       (handleAll 10 [(mkEnv 55000 TxHash, sample 14); (mkEnv 56000 TxThrows, otherSample);
                      (mkEnv 60000 TxHash, sample 10)] {[device := holding]}).2).1
    = Grant (GrantAccessTx device 2400 10 GRANT_VALUE 200000).
Proof.
  destruct (held_grant_is_not_repeated 10
              [(mkEnv 55000 TxHash, sample 14); (mkEnv 56000 TxThrows, otherSample);
               (mkEnv 60000 TxHash, sample 10)]
              device {[device := holding]} (mkEnv 60001 TxHash) 11 0)
    as (H1 & _ & H3).
  - vm_compute. reflexivity.
  - repeat constructor; simpl; try (vm_compute; discriminate);
      intros snr Hsnr; vm_compute in Hsnr; simplify_eq; lia.
  - vm_compute. reflexivity.
  - lia.
  - split; [vm_compute; reflexivity|]. split; [exact H1 | exact H3].
Defined.

Lemma other_samples_leave_the_device_witness :
  Forall (λ s : Env * RawData, dataDevice s.2 ≠ Some device)
    [(mkEnv 1000 TxHash, otherSample); (mkEnv 1500 TxThrows, Unexpected);
     (mkEnv 2000 TxThrows, Fields "0xbb" 12 0)]
  ∧ (handleAll 10
       [(mkEnv 1000 TxHash, otherSample); (mkEnv 1500 TxThrows, Unexpected);
        (mkEnv 2000 TxThrows, Fields "0xbb" 12 0)] {[device := holding]}).2 !! device
    = Some holding.
Proof.
  assert (H : Forall (λ s : Env * RawData, dataDevice s.2 ≠ Some device)
    [(mkEnv 1000 TxHash, otherSample); (mkEnv 1500 TxThrows, Unexpected);
     (mkEnv 2000 TxThrows, Fields "0xbb" 12 0)]).
  { repeat constructor; by vm_compute. }
  split; [exact H|].
  destruct (other_samples_leave_the_device 10 _ device {[device := holding]} H) as [Hm _].
  rewrite Hm. apply lookup_singleton_eq.
Defined.

End DecisionStreams.

(* ===================================================================== *)
(** ** The poller over streams of ticks                                   *)
(* ===================================================================== *)

Module PollerStreams.

Import SpectrumProvider ProviderScenarios PollerInvariant Streams ProviderFacts.
Local Open Scope Z_scope.

Section Ticks.

Context {St : Type}.
Variable handle : RawData → St → St.

Lemma pollTicks_snoc ticks t (p : @Poller St) :
  pollTicks handle (ticks ++ [t]) p = pollTick handle t (pollTicks handle ticks p).
Proof. unfold pollTicks. by rewrite foldl_app. Qed.

Lemma total_is_zero_or_not (N : Z) : N = 0 ∨ N ≠ 0.
Proof. lia. Qed.

Lemma seqZ_snoc (a : Z) : 0 ≤ a → seqZ 0 a ++ [a] = seqZ 0 (a + 1).
Proof.
  intros Ha. replace (a + 1) with (Z.of_nat (S (Z.to_nat a))) by lia.
  rewrite seqZ_S. by replace (Z.of_nat (Z.to_nat a)) with a by lia.
Qed.

(** The loop from the index after the cursor, when no fetch comes back
    empty: what has been dispatched stays an initial segment of the log. *)
Lemma pollLoop_contiguous getAtIndex (k : nat) :
  ∀ a n (p : @Poller St),
    k = Z.to_nat n →
    (∀ i, getAtIndex i ≠ FetchNothing) →
    lastProcessedIndex p = a - 1 →
    dispatched p = seqZ 0 a →
    0 ≤ a →
    dispatched (pollLoop handle getAtIndex (seqZ a n) p)
      = seqZ 0 (lastProcessedIndex (pollLoop handle getAtIndex (seqZ a n) p) + 1)
    ∧ a - 1 ≤ lastProcessedIndex (pollLoop handle getAtIndex (seqZ a n) p).
Proof.
  induction k as [|k IH]; intros a n p Hk Hne Hc Hd Ha.
  - rewrite seqZ_nil by lia. simpl. rewrite Hc, Hd. split; [f_equal; lia | lia].
  - rewrite seqZ_cons by lia. simpl.
    destruct (getAtIndex a) as [| |data] eqn:E.
    + rewrite Hc, Hd. split; [f_equal; lia | lia].
    + by destruct (Hne a).
    + replace (Z.succ a) with (a + 1) by lia.
      destruct (IH (a + 1) (Z.pred n)
                  (mkPoller a (dispatched p ++ [a]) (handle data (handlerState p))))
        as [H1 H2]; [lia | done | simpl; lia | | lia |].
      * simpl. rewrite Hd. by apply seqZ_snoc.
      * split; [exact H1 | lia].
Qed.

Lemma pollTick_contiguous t (p : @Poller St) :
  noEmptyFetch t →
  -1 ≤ lastProcessedIndex p →
  dispatched p = seqZ 0 (lastProcessedIndex p + 1) →
  dispatched (pollTick handle t p) = seqZ 0 (lastProcessedIndex (pollTick handle t p) + 1)
  ∧ lastProcessedIndex p ≤ lastProcessedIndex (pollTick handle t p).
Proof.
  intros Hne Hc Hd. unfold pollTick.
  destruct (totalPublisherDataForSchema t) as [| |total]; [done..|].
  destruct (total =? 0); [done|]. cbn zeta.
  destruct (pollLoop_contiguous (getAtIndex t)
              (Z.to_nat (total - (lastProcessedIndex p + 1)))
              (lastProcessedIndex p + 1) (total - (lastProcessedIndex p + 1)) p)
    as [H1 H2]; [done | exact Hne | lia | done | lia |].
  split; [exact H1 | lia].
Qed.

Lemma pollTicks_contiguous ticks st :
  Forall noEmptyFetch ticks →
  dispatched (pollTicks handle ticks (start st))
    = seqZ 0 (lastProcessedIndex (pollTicks handle ticks (start st)) + 1)
  ∧ -1 ≤ lastProcessedIndex (pollTicks handle ticks (start st)).
Proof.
  induction ticks as [|t ticks IH] using rev_ind; intros Hne.
  - simpl. split; [done | lia].
  - apply Forall_app in Hne as [Hticks Ht]. apply Forall_inv in Ht.
    destruct (IH Hticks) as [Hd Hc]. rewrite pollTicks_snoc.
    destruct (pollTick_contiguous t _ Ht Hc Hd) as [H1 H2].
    split; [exact H1 | lia].
Qed.

(** X13: Exactly once and in order, as long as fetches fail by throwing only:
    after any ticks none of whose fetches came back empty, the dispatched
    indices are [0 .. cursor] with no gap and no repeat; and one more tick
    that reads a count [N] beyond the cursor and gets every record completes
    them to [0 .. N-1]. *)
Theorem no_gaps_without_empty_fetches (ticks : list Tick) (t : Tick) (N : Z) (st : St) :
  Forall noEmptyFetch ticks →
  totalPublisherDataForSchema t = TotalIs N →
  allPresent t →
  lastProcessedIndex (pollTicks handle ticks (start st)) < N →
  dispatched (pollTicks handle ticks (start st))
    = seqZ 0 (lastProcessedIndex (pollTicks handle ticks (start st)) + 1)
  ∧ dispatched (pollTicks handle (ticks ++ [t]) (start st)) = seqZ 0 N
  ∧ lastProcessedIndex (pollTicks handle (ticks ++ [t]) (start st)) = N - 1.
Proof.
  intros Hne Htotal Hall Hlt.
  destruct (pollTicks_contiguous ticks st Hne) as [Hd Hc].
  split; [exact Hd|]. rewrite pollTicks_snoc.
  set (p := pollTicks handle ticks (start st)) in *.
  unfold pollTick. rewrite Htotal.
  destruct (total_is_zero_or_not N) as [->|Hnz].
  { assert (lastProcessedIndex p = -1) by lia.
    simpl. rewrite Hd. split; [f_equal; lia | lia]. }
  apply Z.eqb_neq in Hnz as Hnz'. rewrite Hnz'. cbn zeta.
  destruct (pollLoop_all_fetched handle (getAtIndex t)
              (seqZ (lastProcessedIndex p + 1) (N - (lastProcessedIndex p + 1))) p)
    as [Hd' Hc'].
  { apply Forall_forall. intros i _. apply Hall. }
  rewrite Hd', Hc', Hd. split.
  - pose proof (seqZ_app 0 (lastProcessedIndex p + 1) (N - (lastProcessedIndex p + 1)))
      as Happ.
    rewrite Z.add_0_l in Happ. rewrite <- Happ by lia. f_equal. lia.
  - destruct (total_is_zero_or_not (N - (lastProcessedIndex p + 1))) as [Hz|Hpos].
    + rewrite Hz, seqZ_nil by lia. simpl. lia.
    + replace (N - (lastProcessedIndex p + 1))
        with (Z.of_nat (S (Z.to_nat (N - (lastProcessedIndex p + 1) - 1)))) by lia.
      rewrite seqZ_S, List.last_last. lia.
Qed.

(** X14: A fetch that throws costs nothing: the tick stops with the cursor
    before the index that threw, that index is not dispatched, and the next
    tick that gets every record up to a count beyond it dispatches it. *)
Theorem thrown_fetch_is_retried
    (ticks : list Tick) (t t' : Tick) (N N' i : Z) (st : St) :
  totalPublisherDataForSchema t = TotalIs N →
  lastProcessedIndex (pollTicks handle ticks (start st)) < i < N →
  getAtIndex t i = FetchThrows →
  totalPublisherDataForSchema t' = TotalIs N' →
  i < N' →
  allPresent t' →
  lastProcessedIndex (pollTicks handle (ticks ++ [t]) (start st)) < i
  ∧ (i ∉ dispatched (pollTicks handle (ticks ++ [t]) (start st)))
  ∧ (i ∈ dispatched (pollTicks handle (ticks ++ [t; t']) (start st))).
Proof.
  intros Htotal Hi Hthrow Htotal' Hi' Hall.
  replace (ticks ++ [t; t']) with ((ticks ++ [t]) ++ [t']) by (by rewrite <- app_assoc).
  rewrite !pollTicks_snoc.
  set (p := pollTicks handle ticks (start st)) in *.
  pose proof (pollTick_throw_holds_cursor handle t N i p Htotal Hi Hthrow) as Hc.
  destruct (pollTicks_extends handle ticks (start st) (start_inv st)) as [Hinv _].
  fold p in Hinv.
  destruct (pollTick_extends handle t p Hinv) as [(_ & Hle & Hlow) _].
  set (q := pollTick handle t p) in *.
  split; [exact Hc|]. split.
  - intros Hin. rewrite Forall_forall in Hle. specialize (Hle _ Hin). simpl in Hle. lia.
  - unfold pollTick. rewrite Htotal'.
    destruct (N' =? 0) eqn:E; [apply Z.eqb_eq in E; lia|]. cbn zeta.
    destruct (pollLoop_all_fetched handle (getAtIndex t')
                (seqZ (lastProcessedIndex q + 1) (N' - (lastProcessedIndex q + 1))) q)
      as [Hd _].
    { apply Forall_forall. intros j _. apply Hall. }
    rewrite Hd. apply elem_of_app. right. apply elem_of_seqZ. lia.
Qed.

Lemma deliver_data t st i data :
  getAtIndex t i = FetchData data → deliver handle t st i = handle data st.
Proof. unfold deliver. by intros ->. Qed.

Lemma pollLoop_delivers t indices (p : @Poller St) :
  ∃ new, dispatched (pollLoop handle (getAtIndex t) indices p) = dispatched p ++ new
         ∧ handlerState (pollLoop handle (getAtIndex t) indices p)
           = foldl (deliver handle t) (handlerState p) new
         ∧ Forall (λ i, i ∈ indices ∧ ∃ data, getAtIndex t i = FetchData data) new.
Proof.
  revert p. induction indices as [|i rest IH]; intros p; simpl.
  - exists []. by rewrite app_nil_r.
  - destruct (getAtIndex t i) as [| |data] eqn:E.
    + exists []. by rewrite app_nil_r.
    + destruct (IH p) as (new & Hd & Hs & Hall). exists new.
      split; [done|]. split; [done|].
      eapply Forall_impl; [exact Hall|]. simpl. intros j [Hj Hdata].
      split; [by apply elem_of_cons; right | done].
    + destruct (IH (mkPoller i (dispatched p ++ [i]) (handle data (handlerState p))))
        as (new & Hd & Hs & Hall).
      exists (i :: new). simpl in *. split; [by rewrite Hd, <- app_assoc|]. split.
      * by rewrite Hs, (deliver_data _ _ _ _ E).
      * constructor.
        -- split; [by apply elem_of_cons; left | by eexists].
        -- eapply Forall_impl; [exact Hall|]. simpl. intros j [Hj Hdata].
           split; [by apply elem_of_cons; right | done].
Qed.

(** X15: The handler sees what was dispatched, in that order: the handler state
    after a tick is the state before it with the handler applied to the
    records of the newly dispatched indices, one after the other, and each
    of them is a published index beyond the old cursor whose fetch returned
    a record. *)
Theorem tick_delivers_in_order (t : Tick) (p : @Poller St) :
  ∃ new, dispatched (pollTick handle t p) = dispatched p ++ new
         ∧ handlerState (pollTick handle t p)
           = foldl (deliver handle t) (handlerState p) new
         ∧ Forall (λ i, lastProcessedIndex p < i
                        ∧ (∃ N, totalPublisherDataForSchema t = TotalIs N ∧ i < N)
                        ∧ ∃ data, getAtIndex t i = FetchData data) new.
Proof.
  unfold pollTick.
  destruct (totalPublisherDataForSchema t) as [| |total] eqn:Et;
    try (exists []; by rewrite app_nil_r).
  destruct (total =? 0); [exists []; by rewrite app_nil_r|]. cbn zeta.
  destruct (pollLoop_delivers t
              (seqZ (lastProcessedIndex p + 1) (total - (lastProcessedIndex p + 1))) p)
    as (new & Hd & Hs & Hall).
  exists new. split; [done|]. split; [done|].
  eapply Forall_impl; [exact Hall|]. simpl. intros i [Hi Hdata].
  apply elem_of_seqZ in Hi. split; [lia|]. split; [|done].
  exists total. split; [done | lia].
Qed.

End Ticks.

Lemma no_gaps_without_empty_fetches_witness :
  Forall noEmptyFetch [secondFetchThrows]
  ∧ dispatched (pollTicks record [secondFetchThrows] (start [])) = [0]
  ∧ dispatched (pollTicks record ([secondFetchThrows] ++ [allFetched 3]) (start []))
    = seqZ 0 3.
Proof.
  assert (H : Forall noEmptyFetch [secondFetchThrows]).
  { constructor; [|constructor]. intros i. unfold secondFetchThrows. simpl.
    by destruct (i =? 1). }
  split; [exact H|]. split; [vm_compute; reflexivity|].
  apply (no_gaps_without_empty_fetches record [secondFetchThrows] (allFetched 3) 3 [] H).
  - reflexivity.
  - intros i. by eexists.
  - vm_compute. reflexivity.
Defined.

Lemma thrown_fetch_is_retried_witness :
  getAtIndex secondFetchThrows 1 = FetchThrows
  ∧ (1 ∉ dispatched (pollTicks record ([] ++ [secondFetchThrows]) (start [])))
  ∧ (1 ∈ dispatched (pollTicks record ([] ++ [secondFetchThrows; allFetched 3]) (start []))).
Proof.
  destruct (thrown_fetch_is_retried record [] secondFetchThrows (allFetched 3) 3 3 1 [])
    as (_ & H2 & H3).
  - reflexivity.
  - simpl. lia.
  - reflexivity.
  - reflexivity.
  - lia.
  - intros i. by eexists.
  - split; [reflexivity|]. split; [exact H2 | exact H3].
Defined.

End PollerStreams.

(* ===================================================================== *)
(** ** Facts about the device simulator                                   *)
(* ===================================================================== *)

Module DeviceFacts.

Import IoTDevice.
Local Open Scope Z_scope.

(** X20: Bids come in four tiers, 1, 2, 5 and 10 times 0.001 STT, never below
    the ledger's minimum price, and a worse signal never bids less. *)
Theorem bids_are_tiered (snr snr' : Z) :
  calculateBid snr ∈ [baseBid; 2 * baseBid; 5 * baseBid; 10 * baseBid]
  ∧ Z.of_N SpectrumMarket.MIN_PRICE ≤ calculateBid snr
  ∧ (snr ≤ snr' → calculateBid snr' ≤ calculateBid snr)
  ∧ (calculateBid snr = baseBid ↔ 12 ≤ snr).
Proof.
  unfold calculateBid, baseBid, SpectrumMarket.MIN_PRICE.
  split; [repeat case_match; set_solver|].
  destruct (Z.ltb_spec snr 5), (Z.ltb_spec snr 10), (Z.ltb_spec snr 12);
    destruct (Z.ltb_spec snr' 5), (Z.ltb_spec snr' 10), (Z.ltb_spec snr' 12);
    lia.
Qed.

Lemma bids_are_tiered_witness :
  calculateBid 4 = 10 * baseBid ∧ calculateBid 11 ≤ calculateBid 4.
Proof.
  split; [reflexivity|].
  apply (bids_are_tiered 4 11). lia.
Defined.

(** X21: The interference level is one of 0..5 (it is published as a [uint8]),
    0 exactly from 15 dB up and 5 exactly below 5 dB, and a better signal
    never reports a higher level. *)
Theorem interference_level_is_bounded (snr snr' : Z) :
  0 ≤ getInterferenceLevel snr ≤ 5
  ∧ (getInterferenceLevel snr = 0 ↔ 15 ≤ snr)
  ∧ (getInterferenceLevel snr = 5 ↔ snr < 5)
  ∧ (snr ≤ snr' → getInterferenceLevel snr' ≤ getInterferenceLevel snr).
Proof.
  unfold getInterferenceLevel.
  destruct (Z.leb_spec 15 snr), (Z.leb_spec 12 snr), (Z.leb_spec 10 snr),
    (Z.leb_spec 7 snr), (Z.leb_spec 5 snr);
    destruct (Z.leb_spec 15 snr'), (Z.leb_spec 12 snr'), (Z.leb_spec 10 snr'),
      (Z.leb_spec 7 snr'), (Z.leb_spec 5 snr'); lia.
Qed.

Lemma interference_level_is_bounded_witness :
  getInterferenceLevel 16 = 0 ∧ getInterferenceLevel 16 ≤ getInterferenceLevel 3.
Proof.
  split; [reflexivity|].
  apply (interference_level_is_bounded 3 16). lia.
Defined.

(** X22: What a device publishes and what the provider does with it at its
    default threshold of 10 dB: for a device the provider holds no entry
    for, the sample is granted exactly when the published interference level
    is at most 2, which is exactly when the device bids at most twice the
    base price; the devices that bid 5 or 10 times the base price are the
    ones that get no action. *)
Theorem provider_grants_the_low_bidders
    (env : SpectrumProvider.Env) (d : string) (snr : Z)
    (ds : gmap string SpectrumProvider.DeviceState) :
  ds !! d = None →
  ((SpectrumProvider.handleSignalData 10 env
      (SpectrumProvider.Fields d snr (calculateBid snr)) ds).1
     = SpectrumProvider.Grant
         (SpectrumProvider.GrantAccessTx d 2400 10 SpectrumProvider.GRANT_VALUE 200000)
   ↔ getInterferenceLevel snr ≤ 2)
  ∧ (getInterferenceLevel snr ≤ 2 ↔ calculateBid snr ≤ 2 * baseBid)
  ∧ (5 * baseBid ≤ calculateBid snr →
     SpectrumProvider.handleSignalData 10 env
       (SpectrumProvider.Fields d snr (calculateBid snr)) ds
     = (SpectrumProvider.NoAction, ds)).
Proof.
  intros Hfresh.
  assert (Hstate : SpectrumProvider.hasGrant (SpectrumProvider.currentStateOf d ds) = false).
  { unfold SpectrumProvider.currentStateOf. by rewrite Hfresh. }
  assert (Hlevel : getInterferenceLevel snr ≤ 2 ↔ 10 ≤ snr).
  { unfold getInterferenceLevel. repeat case_match; lia. }
  assert (Hbid : calculateBid snr ≤ 2 * baseBid ↔ 10 ≤ snr).
  { unfold calculateBid, baseBid. repeat case_match; lia. }
  split; [|split].
  - rewrite Hlevel. split.
    + intros Hact. destruct (Z.le_gt_cases 10 snr) as [|Hlow]; [done|].
      rewrite ProviderFacts.handle_idle in Hact; [done | lia | by left].
    + intros Hsnr. rewrite ProviderFacts.handle_grant; [done | done | by left].
  - by rewrite Hlevel, Hbid.
  - intros Hhigh. apply ProviderFacts.handle_idle; [|by left].
    destruct (Z.le_gt_cases 10 snr) as [Hsnr|]; [|lia].
    apply Hbid in Hsnr. unfold baseBid in *. lia.
Qed.

Lemma provider_grants_the_low_bidders_witness :
  (SpectrumProvider.handleSignalData 10 (SpectrumProvider.mkEnv 1000 SpectrumProvider.TxHash)
     (SpectrumProvider.Fields "0xaa" 11 (calculateBid 11)) ∅).1
  = SpectrumProvider.Grant
      (SpectrumProvider.GrantAccessTx "0xaa" 2400 10 SpectrumProvider.GRANT_VALUE 200000)
  ∧ SpectrumProvider.handleSignalData 10
      (SpectrumProvider.mkEnv 1000 SpectrumProvider.TxHash)
      (SpectrumProvider.Fields "0xaa" 4 (calculateBid 4)) ∅
    = (SpectrumProvider.NoAction, ∅).
Proof.
  split.
  - apply (provider_grants_the_low_bidders
             (SpectrumProvider.mkEnv 1000 SpectrumProvider.TxHash) "0xaa" 11 ∅);
      [apply lookup_empty | by vm_compute].
  - apply (provider_grants_the_low_bidders
             (SpectrumProvider.mkEnv 1000 SpectrumProvider.TxHash) "0xaa" 4 ∅);
      [apply lookup_empty | by vm_compute].
Defined.

End DeviceFacts.

(* ===================================================================== *)
(** ** The provider's grant on a concrete ledger                          *)
(* ===================================================================== *)

Module EndToEndExamples.

Local Open Scope N_scope.

Lemma provider_grant_is_accepted_witness :
  SpectrumMarket.transact
    (SpectrumMarket.grantAccess LedgerScenarios.aliceNow
       (Z.to_N SpectrumProvider.GRANT_VALUE) LedgerScenarios.deviceAA 2400 10)
    SpectrumMarket.initial
  = (SpectrumMarket.Done tt, LedgerScenarios.aliceHolds).
Proof.
  apply (EndToEnd.provider_grant_is_accepted LedgerScenarios.aliceNow
           LedgerScenarios.deviceAA SpectrumMarket.initial); by vm_compute.
Defined.

End EndToEndExamples.

(* ===================================================================== *)
(** ** The overflow revert and the grant roll-back on concrete inputs     *)
(* ===================================================================== *)

Module RollbackExamples.

Lemma grantAccess_panic_after_write_witness :
  SpectrumMarket.transact
    (SpectrumMarket.grantAccess LedgerScenarios.aliceNow SpectrumMarket.MIN_PRICE
       LedgerScenarios.deviceAA 2400 10)
    (SpectrumMarket.mkStorage ∅ SpectrumMarket.uint256_max [])
  = (SpectrumMarket.Revert SpectrumMarket.Panic,
     SpectrumMarket.mkStorage ∅ SpectrumMarket.uint256_max []).
Proof.
  assert (Hpay : (SpectrumMarket.MIN_PRICE ≤ SpectrumMarket.MIN_PRICE)%N) by done.
  assert (Hdur : (0 < 10 ≤ 3600)%N) by lia.
  assert (Hfreq : 2400%N ≠ 0%N) by done.
  assert (Htime : (SpectrumMarket.block_timestamp LedgerScenarios.aliceNow + 10
                   ≤ SpectrumMarket.uint256_max)%N) by (by vm_compute).
  assert (Hsum : (SpectrumMarket.uint256_max
                  < SpectrumMarket.totalCollected
                      (SpectrumMarket.mkStorage ∅ SpectrumMarket.uint256_max [])
                    + SpectrumMarket.MIN_PRICE)%N) by (by vm_compute).
  destruct (MarketFacts.grantAccess_panic_after_write LedgerScenarios.aliceNow
              SpectrumMarket.MIN_PRICE LedgerScenarios.deviceAA 2400 10
              (SpectrumMarket.mkStorage ∅ SpectrumMarket.uint256_max [])
              Hpay Hdur Hfreq Htime Hsum)
    as (s' & _ & _ & Hroll).
  exact Hroll.
Defined.

Lemma failed_grant_is_rolled_back_witness :
  SpectrumProvider.currentStateOf ProviderScenarios.device
    (SpectrumProvider.handleSignalData 10
       (SpectrumProvider.mkEnv 1000 SpectrumProvider.TxThrows)
       (ProviderScenarios.sample 12) ∅).2
  = SpectrumProvider.freshState.
Proof.
  rewrite (ProviderFacts.failed_grant_is_rolled_back 10
             (SpectrumProvider.mkEnv 1000 SpectrumProvider.TxThrows)
             ProviderScenarios.device 12 SpectrumProvider.GRANT_VALUE ∅);
    [reflexivity | by vm_compute | by left | reflexivity].
Defined.

End RollbackExamples.
